(** * django-cumulus: the Cloud Files storage backend (cumulus/storage.py)

    A shallow embedding of [CloudFilesStorage] and [CloudFilesStorageFile].
    The remote service (pyrax), the logger and the Django file objects are
    modelled as explicit state; every method is a state-passing function
    that returns either a value or the raised exception. *)

From Stdlib Require Import ZArith Ascii String List Lia Bool.
From stdpp Require Import base gmap strings list fin_maps.
From Equations Require Import Equations.

Local Open Scope Z_scope.
Local Open Scope string_scope.

(** ** Exceptions *)

(** The exception classes the module names, and a few it can meet. *)
Inductive exn : Set :=
| HTTPException            (* httplib.HTTPException *)
| SSLError                 (* ssl.SSLError *)
| ServiceResponseFailure   (* pyrax.exceptions.ServiceResponseFailure *)
| socket_error             (* socket.error *)
| NoSuchObject             (* pyrax.exceptions.NoSuchObject *)
| AuthenticationFailed     (* pyrax.exceptions.AuthenticationFailed *)
| AttributeError
| ValueError
| OtherError.

#[global] Instance exn_eq_dec : EqDecision exn.
Proof. solve_decision. Defined.

(** [isinstance e c]: an exception of class [e] is caught by [except c].
    The module is Python 2 code ([httplib], [except ..., e]); there
    [ssl.SSLError] derives from [socket.error]. *)
Definition isinstance (e c : exn) : bool :=
  bool_decide (e = c) || (bool_decide (e = SSLError) && bool_decide (c = socket_error)).

(** [except (c1, c2, ...)] *)
Definition catches (classes : list exn) (e : exn) : bool :=
  existsb (isinstance e) classes.

(** ** Results and the state monad *)

Inductive result (A : Type) : Type :=
| Ok (a : A)
| Raise (e : exn).
Arguments Ok {A} a.
Arguments Raise {A} e.

Definition M (S A : Type) : Type := S -> result A * S.

Definition ret {S A} (a : A) : M S A := fun s => (Ok a, s).
Definition raise {S A} (e : exn) : M S A := fun s => (Raise e, s).
Definition bind {S A B} (m : M S A) (k : A -> M S B) : M S B :=
  fun s => match m s with
           | (Ok a, s1) => k a s1
           | (Raise e, s1) => (Raise e, s1)
           end.
Definition modify {S} (f : S -> S) : M S unit := fun s => (Ok tt, f s).
Definition gets {S A} (f : S -> A) : M S A := fun s => (Ok (f s), s).

(** [try: m  except: h] where [h e = None] when no clause catches [e]. *)
Definition try_except {S A} (m : M S A) (h : exn -> option (M S A)) : M S A :=
  fun s => match m s with
           | (Ok a, s1) => (Ok a, s1)
           | (Raise e, s1) => match h e with
                              | Some k => k s1
                              | None => (Raise e, s1)
                              end
           end.

Notation "'let*' x ':=' c 'in' k" := (bind c (fun x => k))
  (at level 10, x name, c at level 100, k at level 200).
Notation "c ';;' k" := (bind c (fun _ => k))
  (at level 100, k at level 200, right associativity).

(** Run a computation on the first (resp. second) component of a pair state. *)
Definition on_fst {S T A} (m : M S A) : M (S * T) A :=
  fun st => match m (fst st) with (r, s1) => (r, (s1, snd st)) end.
Definition on_snd {S T A} (m : M T A) : M (S * T) A :=
  fun st => match m (snd st) with (r, t1) => (r, (fst st, t1)) end.

(** ** The [while True: try ... except ...] retry loop

    The three loops of the module have one shape: a try suite, except
    clauses, a counter [tries] compared with [self.max_retries], a warning.
    [handler] says which except clause catches an exception. *)

Inductive except_clause (A : Type) : Type :=
| Swallow (a : A)   (* a clause that leaves the loop: [break] *)
| Retry             (* the clause that counts, logs and loops *)
| Propagate.        (* no clause catches *)
Arguments Swallow {A} a.
Arguments Retry {A}.
Arguments Propagate {A}.

Section retry_loop.
Context {St A : Type}.
Variable max_retries : Z.                   (* self.max_retries *)
Variable attempt : M St A.                  (* the try suite *)
Variable handler : exn -> except_clause A.  (* the except clauses *)
Variable on_retry : exn -> Z -> St -> St.   (* after [tries += 1]: warning, rewind *)
Variable on_success : St -> St.             (* what runs when the try suite succeeds *)

(** One iteration: run the try suite; a caught failure either leaves the
    loop, or re-raises when [tries >= self.max_retries], or increments
    [tries], logs, and loops.  Terminates because [max_retries - tries]
    decreases at every turn of the loop. *)
Equations? retry_loop (tries : Z) (s : St) : result A * St
  by wf (Z.to_nat (max_retries - tries)) lt :=
retry_loop tries s with attempt s := {
  | (Ok a, s1) := (Ok a, on_success s1);
  | (Raise e, s1) with handler e := {
    | Swallow a := (Ok a, s1);
    | Propagate := (Raise e, s1);
    | Retry with Z_ge_lt_dec tries max_retries := {
      | left _ := (Raise e, s1);
      | right _ := retry_loop (tries + 1) (on_retry e (tries + 1) s1) } } }.
Proof. lia. Qed.

End retry_loop.

(** How control leaves a try suite.  The [else] suite of a [try] statement
    runs only when the try suite runs to its end: not after [break],
    [return] or an exception. *)
Inductive leave : Set := by_break | by_return | to_the_end.

Definition else_suite_runs (l : leave) : bool :=
  match l with to_the_end => true | _ => false end.

(** ** The remote service, as pyrax shows it *)

(** What the container holds under a name: the checksum and the size the
    service reports for it, and its bytes. *)
Record stored : Type := {
  s_etag : option string;      (* None or a string *)
  s_total_bytes : Z;
  s_bytes : string }.

(** A pyrax [StorageObject]: the handle [get_object] returns, with the
    name and what the service reported when it was fetched. *)
Record cloud_obj : Type := {
  obj_name : string;
  etag : option string;
  total_bytes : Z }.

Definition handle (name : string) (x : stored) : cloud_obj :=
  {| obj_name := name; etag := s_etag x; total_bytes := s_total_bytes x |}.

(** The calls made to pyrax, in order. *)
Inductive call : Type :=
| call_get_object (name : string)
| call_upload_file (name : string) (content_type : option string)
    (etag : string) (headers : gmap string string) (sent : string)
| call_delete_object (name : string)
| call_list_all (prefix : string)
| call_get (name : string)
| call_set_setting (key value : string)
| call_set_credentials (username api_key : option string).

(** A [logger.warning('Failed to <what> %s: %r (attempt %d/%d)')] record. *)
Record log_record : Type := {
  log_what : string;
  log_name : string;
  log_exn : exn;
  log_attempt : Z;
  log_max : Z }.

(** The world outside the module: the container's objects, the failures
    the next pyrax calls will meet ([Some e]: the call raises [e];
    [None] or no entry: the call goes through), the calls made so far and
    the warnings logged so far. *)
Record world : Type := {
  objects : gmap string stored;
  faults : list (option exn);
  calls : list call;
  log : list log_record }.

Definition logger_warning (r : log_record) (w : world) : world :=
  {| objects := objects w; faults := faults w; calls := calls w;
     log := log w ++ [r] |}.

(** A pyrax call: recorded, then either it meets the next scripted failure
    or it acts on the objects. *)
Definition remote {A} (c : call)
    (op : gmap string stored -> result A * gmap string stored) : M world A :=
  fun w =>
    match faults w with
    | Some e :: fs =>
        (Raise e, {| objects := objects w; faults := fs;
                     calls := calls w ++ [c]; log := log w |})
    | fs =>
        match op (objects w) with
        | (r, o) => (r, {| objects := o; faults := tail fs;
                           calls := calls w ++ [c]; log := log w |})
        end
    end.

(** [self.container.get_object(name)] *)
Definition get_object (name : string) : M world cloud_obj :=
  remote (call_get_object name)
    (fun o => match o !! name with
              | Some x => (Ok (handle name x), o)
              | None => (Raise NoSuchObject, o)
              end).

(** [self.container.delete_object(name)] *)
Definition delete_object (name : string) : M world unit :=
  remote (call_delete_object name)
    (fun o => match o !! name with
              | Some _ => (Ok tt, base.delete name o)
              | None => (Raise NoSuchObject, o)
              end).

(** [self.container.list_all(prefix=path)]: the objects whose name starts
    with the prefix. *)
Definition list_all (path : string) : M world (list cloud_obj) :=
  remote (call_list_all path)
    (fun o =>
       (Ok (List.map (fun p => handle (fst p) (snd p))
              (List.filter (fun p => String.prefix path (fst p)) (map_to_list o))),
        o)).

(** [StorageObject.get()]: fetch the bytes the container holds under the
    name of the handle. *)
Definition get (f : cloud_obj) : M world string :=
  remote (call_get (obj_name f))
    (fun o => match o !! obj_name f with
              | Some x => (Ok (s_bytes x), o)
              | None => (Raise NoSuchObject, o)
              end).

(** [pyrax.set_setting], [pyrax.set_credentials] *)
Definition set_setting (key value : string) : M world unit :=
  remote (call_set_setting key value) (fun o => (Ok tt, o)).
Definition set_credentials (username api_key : option string) : M world unit :=
  remote (call_set_credentials username api_key) (fun o => (Ok tt, o)).

(** ** The content handed to [_save] (a Django [File]) *)

Record content : Type := {
  c_bytes : string;                       (* the bytes of content.file *)
  c_pos : nat;                            (* the position in them *)
  c_closed : bool;
  c_on_disk : bool;                       (* self.name and os.path.exists(self.name) *)
  c_seekable : bool;                      (* hasattr(content, 'seek') *)
  c_file_content_type : option string;    (* content.file.content_type, when it has one *)
  c_content_type : option string }.       (* content.content_type, when it has one *)

Definition set_pos (n : nat) (c : content) : content :=
  {| c_bytes := c_bytes c; c_pos := n; c_closed := c_closed c;
     c_on_disk := c_on_disk c; c_seekable := c_seekable c;
     c_file_content_type := c_file_content_type c;
     c_content_type := c_content_type c |}.

Definition set_closed (b : bool) (c : content) : content :=
  {| c_bytes := c_bytes c; c_pos := c_pos c; c_closed := b;
     c_on_disk := c_on_disk c; c_seekable := c_seekable c;
     c_file_content_type := c_file_content_type c;
     c_content_type := c_content_type c |}.

(** [content.seek(0)] and [content.close()] *)
Definition content_seek0 (c : content) : content := set_pos 0 c.
Definition content_close (c : content) : content := set_closed true c.

(** Django's [File.open()]: an open file is rewound; a closed one is
    reopened from disk when it is there, else [ValueError]. *)
Definition content_open : M content unit :=
  fun c =>
    if negb (c_closed c) then
      if c_seekable c then (Ok tt, content_seek0 c) else (Raise AttributeError, c)
    else if c_on_disk c then
      (Ok tt, {| c_bytes := c_bytes c; c_pos := 0; c_closed := false;
                 c_on_disk := true; c_seekable := true;
                 c_file_content_type := None;
                 c_content_type := c_content_type c |})
    else (Raise ValueError, c).

(** The bytes from position [n] on. *)
Fixpoint string_drop (n : nat) (s : string) : string :=
  match n, s with
  | O, _ => s
  | S n', String _ s' => string_drop n' s'
  | S _, EmptyString => EmptyString
  end.

(** [self.container.upload_file(content.file, name, content_type, etag,
    headers=headers)]: the file is read from its position to its end and
    sent; when the call goes through the object is stored. *)
Definition upload_file (name : string) (content_type : option string)
    (etag_ : string) (headers : gmap string string) : M (world * content) cloud_obj :=
  fun st =>
    let c := snd st in
    let sent := string_drop (c_pos c) (c_bytes c) in
    let new := {| s_etag := Some etag_;
                  s_total_bytes := Z.of_nat (String.length sent);
                  s_bytes := sent |} in
    match remote (call_upload_file name content_type etag_ headers sent)
                 (fun o => (Ok (handle name new), <[name := new]> o)) (fst st) with
    | (r, w1) => (r, (w1, set_pos (String.length (c_bytes c)) c))
    end.

(** ** What the module imports *)

(** The value of [hashlib.md5(...).hexdigest()]: 32 hexadecimal digits.
    [_save]'s comment: "The hash is md5 of the content". *)
Record md5_hexdigest : Type := {
  hexdigest : string;
  hexdigest_length : String.length hexdigest = 32%nat }.

(** [cumulus.settings.CUMULUS], the keys the storage reads.  [CONTAINER_URI]
    is [None] when the key is not in the dictionary. *)
Record settings : Type := {
  API_KEY : option string;
  CONTAINER : option string;
  MAX_RETRIES : Z;
  PYRAX_IDENTITY_TYPE : string;
  TIMEOUT : Z;
  TTL : Z;
  USE_SSL : bool;
  USERNAME : option string;
  CONTAINER_URI : option string }.

(** The defaults of settings.py, before [settings.CUMULUS] updates them. *)
Definition CUMULUS_defaults : settings :=
  {| API_KEY := None; CONTAINER := None; MAX_RETRIES := 5;
     PYRAX_IDENTITY_TYPE := "keystone"; TIMEOUT := 5; TTL := 86400;
     USE_SSL := false; USERNAME := None; CONTAINER_URI := None |}.

(** The library functions the module calls and its module-level values. *)
Class Imports : Type := {
  pattern : Type;                                   (* a compiled regular expression *)
  re_match : pattern -> string -> bool;             (* pattern.match(name) is a match *)
  HEADER_PATTERNS : list (pattern * gmap string string);
  get_checksum : string -> md5_hexdigest;           (* pyrax.utils.get_checksum *)
  guess_type : string -> option string;             (* mimetypes.guess_type(name)[0] *)
  CUMULUS : settings }.

(** Truth value of [None] or a string. *)
Definition truthy (o : option string) : bool :=
  match o with
  | Some s => negb (String.eqb s EmptyString)
  | None => false
  end.

(** [a == b] for [a] a string or [None] and [b] a string. *)
Definition py_eq (a : option string) (b : string) : bool :=
  match a with
  | Some s => String.eqb s b
  | None => false
  end.

(** [s.endswith(suffix)] *)
Fixpoint endswith (s suffix : string) : bool :=
  String.eqb s suffix ||
  match s with
  | EmptyString => false
  | String _ s' => endswith s' suffix
  end.

(** ** class CloudFilesStorage *)

Module CloudFilesStorage.

Record t : Type := {
  api_key : option string;
  container_name : option string;
  max_retries : Z;
  pyrax_identity_type : string;
  timeout : Z;
  ttl : Z;
  use_ssl : bool;
  username : option string;
  _container_public_uri : option string }.   (* None: the attribute is not set *)

Section methods.
Context `{Imports}.

(** [x if x is not None else the class attribute] *)
Definition override {A} (param : option A) (class_attr : A) : A :=
  match param with
  | Some x => x
  | None => class_attr
  end.

Definition __init__ (username_ api_key_ container : option string)
    (timeout_ max_retries_ : option Z) (container_uri : option string) : M world t :=
  let self :=
    {| username := match username_ with Some u => Some u | None => USERNAME CUMULUS end;
       api_key := match api_key_ with Some k => Some k | None => API_KEY CUMULUS end;
       container_name := match container with Some c => Some c | None => CONTAINER CUMULUS end;
       timeout := override timeout_ (TIMEOUT CUMULUS);
       max_retries := override max_retries_ (MAX_RETRIES CUMULUS);
       _container_public_uri :=
         match container_uri with
         | Some u => Some u
         | None => CONTAINER_URI CUMULUS
         end;
       pyrax_identity_type := PYRAX_IDENTITY_TYPE CUMULUS;
       ttl := TTL CUMULUS;
       use_ssl := USE_SSL CUMULUS |} in
  set_setting "identity_type" (pyrax_identity_type self) ;;
  set_credentials (username self) (api_key self) ;;
  ret self.

(** [except (HTTPException, SSLError, ServiceResponseFailure)] *)
Definition fetch_handler {A} (e : exn) : except_clause A :=
  if catches [HTTPException; SSLError; ServiceResponseFailure] e then Retry
  else Propagate.

(** The [while True] loop of [_get_cloud_obj], from a value of [tries]. *)
Definition _get_cloud_obj_loop (self : t) (name : string) (tries : Z) : M world cloud_obj :=
  retry_loop (max_retries self)
    (get_object name)
    fetch_handler
    (fun e tries =>
       logger_warning {| log_what := "retrieve"; log_name := name; log_exn := e;
                         log_attempt := tries; log_max := max_retries self |})
    (fun w => w)
    tries.

Definition _get_cloud_obj (self : t) (name : string) : M world cloud_obj :=
  _get_cloud_obj_loop self name 0.

(** [_headers_for]: [headers.update(pattern_headers.copy())] for each
    pattern that matches, in the order of the table. *)
Fixpoint _headers_for_loop (name : string)
    (header_patterns : list (pattern * gmap string string))
    (headers : gmap string string) : gmap string string :=
  match header_patterns with
  | [] => headers
  | (pattern_, pattern_headers) :: rest =>
      _headers_for_loop name rest
        (if re_match pattern_ name then pattern_headers ∪ headers else headers)
  end.

Definition _headers_for (name : string)
    (header_patterns : list (pattern * gmap string string)) : gmap string string :=
  _headers_for_loop name header_patterns ∅.

(** [except (HTTPException, SSLError, ServiceResponseFailure, socket.error)] *)
Definition upload_handler {A} (e : exn) : except_clause A :=
  if catches [HTTPException; SSLError; ServiceResponseFailure; socket_error] e then Retry
  else Propagate.

(** The [while True] loop of [_save], from a value of [tries].  The try
    suite ends in [break], and [content.close()] stands in the [else] suite
    of the try statement. *)
Definition _save_upload_loop (self : t) (name : string) (content_type : option string)
    (etag_ : string) (headers : gmap string string) (tries : Z) :
    M (world * content) cloud_obj :=
  retry_loop (max_retries self)
    (upload_file name content_type etag_ headers)
    upload_handler
    (fun e tries st =>
       let w := logger_warning {| log_what := "send"; log_name := name; log_exn := e;
                                  log_attempt := tries; log_max := max_retries self |}
                               (fst st) in
       (* re-init the content before retrying *)
       if c_seekable (snd st) then (w, content_seek0 (snd st)) else (w, snd st))
    (fun st =>
       if else_suite_runs by_break then (fst st, content_close (snd st)) else st)
    tries.

(** [_save(name, content)]; the state holds the content.  ([os.path.split]
    of the name is computed and not used.)  [pyrax.utils.get_checksum] reads
    the whole file and puts its position back. *)
Definition _save (self : t) (name : string) : M (world * content) string :=
  let* etag_ := gets (fun st => hexdigest (get_checksum (c_bytes (snd st)))) in
  (* try: cloud_obj = self._get_cloud_obj(name)  except NoSuchObject: pass *)
  let* found :=
    try_except
      (let* cloud_obj_ := on_fst (_get_cloud_obj self name) in ret (Some cloud_obj_))
      (fun e => if catches [NoSuchObject] e then Some (ret None) else None) in
  (* else: if cloud_obj.etag and cloud_obj.etag == etag: upload = False *)
  let upload :=
    match found with
    | Some cloud_obj_ =>
        if truthy (etag cloud_obj_) && py_eq (etag cloud_obj_) etag_ then false else true
    | None => true
    end in
  (if upload then
     on_snd content_open ;;
     let* content_type :=
       gets (fun st =>
               match c_file_content_type (snd st) with
               | Some ct => Some ct
               | None =>
                   match c_content_type (snd st) with
                   | Some ct => Some ct
                   | None => guess_type name
                   end
               end) in
     let headers := _headers_for name HEADER_PATTERNS in
     _save_upload_loop self name content_type etag_ headers 0 ;;
     ret tt
   else ret tt) ;;
  ret name.

Definition delete_handler (e : exn) : except_clause unit :=
  if catches [NoSuchObject] e then Swallow tt
  else if catches [HTTPException; SSLError; ServiceResponseFailure] e then Retry
  else Propagate.

(** The [while True] loop of [delete], from a value of [tries]. *)
Definition delete_loop (self : t) (name : string) (tries : Z) : M world unit :=
  retry_loop (max_retries self)
    (delete_object name)
    delete_handler
    (fun e tries =>
       logger_warning {| log_what := "delete"; log_name := name; log_exn := e;
                         log_attempt := tries; log_max := max_retries self |})
    (fun w => w)
    tries.

Definition delete (self : t) (name : string) : M world unit :=
  delete_loop self name 0.

Definition exists_ (self : t) (name : string) : M world bool :=
  try_except
    (_get_cloud_obj self name ;; ret true)
    (fun e => if catches [NoSuchObject] e then Some (ret false) else None).

(** [if path and not path.endswith('/'): path = '%s/' % path] *)
Definition listdir_path (path : string) : string :=
  if negb (String.eqb path EmptyString) && negb (endswith path "/") then path ++ "/"
  else path.

Definition listdir (self : t) (path : string) : M world (list string * list string) :=
  let path := listdir_path path in
  let* found := list_all path in
  let files := List.map obj_name found in
  ret ([], files).

Definition size (self : t) (name : string) : M world Z :=
  let* o := _get_cloud_obj self name in
  ret (total_bytes o).

End methods.
End CloudFilesStorage.

(** ** class CloudFilesStorageFile *)

Module CloudFilesStorageFile.

(** The instance attributes; [None] for [_size], [_file] and [_pos] when
    the attribute is not set. *)
Record t : Type := {
  _container : CloudFilesStorage.t;
  name : string;
  _size : option Z;
  _file : option cloud_obj;
  _pos : option Z }.

Definition __init__ (container : CloudFilesStorage.t) (name_ : string) : t :=
  {| _container := container; name := name_;
     _size := None; _file := None; _pos := None |}.

Definition set_size (z : Z) (f : t) : t :=
  {| _container := _container f; name := name f;
     _size := Some z; _file := _file f; _pos := _pos f |}.

Definition set_file (o : option cloud_obj) (f : t) : t :=
  {| _container := _container f; name := name f;
     _size := _size f; _file := o; _pos := _pos f |}.

Definition set_pos (z : Z) (f : t) : t :=
  {| _container := _container f; name := name f;
     _size := _size f; _file := _file f; _pos := Some z |}.

Definition _get_size : M (world * t) Z :=
  let* self := gets snd in
  match _size self with
  | Some z => ret z
  | None =>
      let* z := on_fst (CloudFilesStorage.size (_container self) (name self)) in
      modify (fun st => (fst st, set_size z (snd st))) ;;
      ret z
  end.

Definition _set_size (z : Z) : M (world * t) unit :=
  modify (fun st => (fst st, set_size z (snd st))).

Definition _get_file : M (world * t) cloud_obj :=
  let* self := gets snd in
  match _file self with
  | Some o => ret o
  | None =>
      let* o := on_fst (CloudFilesStorage._get_cloud_obj (_container self) (name self)) in
      modify (fun st => (fst st, set_pos 0 (set_file (Some o) (snd st)))) ;;
      ret o
  end.

Definition _set_file (value : option cloud_obj) : M (world * t) unit :=
  modify (fun st => (fst st, set_file value (snd st))).

(** Reading [self._pos]: [AttributeError] while the attribute is not set. *)
Definition get_pos : M (world * t) Z :=
  fun st => match _pos (snd st) with
            | Some p => (Ok p, st)
            | None => (Raise AttributeError, st)
            end.

Definition read (num_bytes : Z) : M (world * t) string :=
  let* pos := get_pos in
  let* size := _get_size in
  if (pos =? size)%Z then ret EmptyString
  else
    let* num_bytes :=
      (if negb (num_bytes =? 0)%Z then
         let* pos := get_pos in
         let* size := _get_size in
         if (pos + num_bytes >? size)%Z then
           let* size := _get_size in
           let* pos := get_pos in
           ret (size - pos)
         else ret num_bytes
       else ret num_bytes) in
    let* file := _get_file in
    let* data := on_fst (get file) in
    let* pos := get_pos in
    modify (fun st => (fst st, set_pos (pos + Z.of_nat (String.length data)) (snd st))) ;;
    ret data.

End CloudFilesStorageFile.

(** ** Observations on a run *)

Definition is_upload (c : call) : bool :=
  match c with
  | call_upload_file _ _ _ _ _ => true
  | _ => false
  end.

(** The number of [upload_file] calls among the calls made. *)
Definition uploads (cs : list call) : nat := length (List.filter is_upload cs).

(** The bytes the [upload_file] calls sent, in order. *)
Definition sent_bytes (cs : list call) : list string :=
  flat_map (fun c => match c with
                     | call_upload_file _ _ _ _ sent => [sent]
                     | _ => []
                     end) cs.

Definition is_fault (f : option exn) : bool :=
  match f with
  | Some _ => true
  | None => false
  end.

(** The failure the next pyrax call meets, if any. *)
Definition next_fault (fs : list (option exn)) : option exn :=
  match fs with
  | Some e :: _ => Some e
  | _ => None
  end.

(** The calls that failed between two worlds of a run: the scripted
    failures consumed. *)
Definition failures_observed (w w' : world) : nat :=
  length (List.filter is_fault
            (firstn (length (faults w) - length (faults w')) (faults w))).

(** The warnings logged between two worlds of a run. *)
Definition attempts_logged (w w' : world) : nat :=
  (length (log w') - length (log w))%nat.

(** The world after a pyrax call that failed, or that changed no object. *)
Definition after_call (c : call) (w : world) : world :=
  {| objects := objects w; faults := tail (faults w);
     calls := calls w ++ [c]; log := log w |}.

(** The warning of an attempt. *)
Definition warning (what name : string) (e : exn) (max : Z) (attempt : Z) : log_record :=
  {| log_what := what; log_name := name; log_exn := e;
     log_attempt := attempt; log_max := max |}.

(** The world after [k] failed calls [c], each followed by its warning:
    attempts [from + 1] to [from + k]. *)
Definition after_failures (c : call) (what name : string) (e : exn) (max from : Z)
    (k : nat) (w : world) : world :=
  {| objects := objects w;
     faults := skipn k (faults w);
     calls := calls w ++ repeat c k;
     log := log w ++
            List.map (fun i => warning what name e max (from + Z.of_nat i)) (seq 1 k) |}.

(** The warnings of the failed attempts [from + 1], [from + 2], ..., one
    for each error, in their order. *)
Fixpoint warnings (what name : string) (max from : Z) (es : list exn) : list log_record :=
  match es with
  | [] => []
  | e :: rest =>
      warning what name e max (from + 1) :: warnings what name max (from + 1) rest
  end.

(** The world after one failed call [c] for each error of [es], each
    followed by its warning. *)
Definition after_errors (c : call) (what name : string) (max from : Z) (es : list exn)
    (w : world) : world :=
  {| objects := objects w;
     faults := skipn (length es) (faults w);
     calls := calls w ++ repeat c (length es);
     log := log w ++ warnings what name max from es |}.

(** The errors the warnings logged between two worlds of a run name, in
    the order of the log. *)
Definition errors_logged (w w' : world) : list exn :=
  List.map log_exn (skipn (length (log w)) (log w')).

(** What an [upload_file] call of the content sends. *)
Definition upload_call (name : string) (content_type : option string) (etag_ : string)
    (headers : gmap string string) (c : content) : call :=
  call_upload_file name content_type etag_ headers (string_drop (c_pos c) (c_bytes c)).

(** What the container holds after an upload of the content. *)
Definition uploaded (etag_ : string) (c : content) : stored :=
  {| s_etag := Some etag_;
     s_total_bytes := Z.of_nat (String.length (string_drop (c_pos c) (c_bytes c)));
     s_bytes := string_drop (c_pos c) (c_bytes c) |}.

Section save_steps.
Context `{Imports}.

(** The content type [_save] passes to [upload_file]. *)
Definition content_type_of (name : string) (c : content) : option string :=
  match c_file_content_type c with
  | Some ct => Some ct
  | None =>
      match c_content_type c with
      | Some ct => Some ct
      | None => guess_type name
      end
  end.

(** [_save] from the upload step on: the result of the loop, with [name]
    for the handle. *)
Definition save_upload_step (self : CloudFilesStorage.t) (name : string)
    (st : world * content) : result string * (world * content) :=
  let r := CloudFilesStorage._save_upload_loop self name (content_type_of name (snd st))
             (hexdigest (get_checksum (c_bytes (snd st))))
             (CloudFilesStorage._headers_for name HEADER_PATTERNS) 0 st in
  (match fst r with Ok _ => Ok name | Raise e => Raise e end, snd r).

End save_steps.

(** ** HeaderRules, in the words of the specification *)

Section header_rules.
Context `{Imports}.

(** Start with an empty map; for each rule in order whose pattern matches
    the name, merge its header-set into the accumulator, the merged
    header-set winning on the keys both have. *)
Definition merge_overwriting (acc hs : gmap string string) : gmap string string :=
  union_with (fun new _ => Some new) hs acc.

Definition headersFor (rules : list (pattern * gmap string string)) (name : string) :
    gmap string string :=
  fold_left merge_overwriting
    (List.map snd (List.filter (fun rule => re_match (fst rule) name) rules)) ∅.

(** Key by key: the value a key gets is the one of the last rule, in table
    order, that matches the name and sets the key. *)
Fixpoint last_setting (rules : list (pattern * gmap string string)) (name key : string) :
    option string :=
  match rules with
  | [] => None
  | (p, hs) :: rest =>
      match last_setting rest name key with
      | Some v => Some v
      | None => if re_match p name then hs !! key else None
      end
  end.

End header_rules.

(** ** RemoteFileStream: the properties of a run of reads *)

(** The service reports, as the size of an object, the length of the bytes
    it serves for it. *)
Definition reports_true_size (x : stored) : Prop :=
  s_total_bytes x = Z.of_nat (String.length (s_bytes x)).

(** A stream as the methods of the class leave it, over a container that
    holds [o]: a cached size is the reported size of the object of that
    name, and a cursor is at the start or at the end of its bytes. *)
Definition stream_ok (o : gmap string stored) (f : CloudFilesStorageFile.t) : Prop :=
  (forall z, CloudFilesStorageFile._size f = Some z ->
     exists x, o !! CloudFilesStorageFile.name f = Some x /\ z = s_total_bytes x) /\
  (forall p, CloudFilesStorageFile._pos f = Some p ->
     exists x, o !! CloudFilesStorageFile.name f = Some x /\
               (p = 0 \/ p = Z.of_nat (String.length (s_bytes x)))) /\
  (forall h, CloudFilesStorageFile._file f = Some h ->
     obj_name h = CloudFilesStorageFile.name f).

(** The state after the reads [read(n1); read(n2); ...], whatever each
    returns or raises. *)
Definition after_reads (args : list Z) (st : world * CloudFilesStorageFile.t) :
    world * CloudFilesStorageFile.t :=
  fold_left (fun st n => snd (CloudFilesStorageFile.read n st)) args st.

(** The cursor moved forward: once set it stays set and does not decrease. *)
Definition cursor_le (a b : option Z) : Prop :=
  match a, b with
  | Some p, Some q => p <= q
  | Some _, None => False
  | None, _ => True
  end.

(** The cursor does not exceed the resolved size. *)
Definition within_size (f : CloudFilesStorageFile.t) : Prop :=
  match CloudFilesStorageFile._pos f, CloudFilesStorageFile._size f with
  | Some p, Some z => 0 <= p <= z
  | _, _ => True
  end.

(** ** A concrete setting for the examples *)

(** Regular expressions with [re.match]: the pattern has to match at the
    start of the string, not the whole of it. *)
Inductive regex : Type :=
| re_none
| re_eps
| re_chr (c : ascii)
| re_any
| re_cat (r1 r2 : regex)
| re_alt (r1 r2 : regex)
| re_star (r : regex).

Fixpoint nullable (r : regex) : bool :=
  match r with
  | re_none => false
  | re_eps => true
  | re_chr _ => false
  | re_any => false
  | re_cat r1 r2 => nullable r1 && nullable r2
  | re_alt r1 r2 => nullable r1 || nullable r2
  | re_star _ => true
  end.

Fixpoint deriv (c : ascii) (r : regex) : regex :=
  match r with
  | re_none => re_none
  | re_eps => re_none
  | re_chr d => if Ascii.eqb c d then re_eps else re_none
  | re_any => re_eps
  | re_cat r1 r2 =>
      if nullable r1 then re_alt (re_cat (deriv c r1) r2) (deriv c r2)
      else re_cat (deriv c r1) r2
  | re_alt r1 r2 => re_alt (deriv c r1) (deriv c r2)
  | re_star r1 => re_cat (deriv c r1) (re_star r1)
  end.

Fixpoint regex_match (r : regex) (s : string) : bool :=
  nullable r ||
  match s with
  | EmptyString => false
  | String c s' => regex_match (deriv c r) s'
  end.

(** The pattern that spells a string. *)
Fixpoint re_lit (s : string) : regex :=
  match s with
  | EmptyString => re_eps
  | String c s' => re_cat (re_chr c) (re_lit s')
  end.

Module Scenario.

Definition md5_of_hello : md5_hexdigest :=
  {| hexdigest := "5d41402abc4b2a76b9719d911017c592"; hexdigest_length := eq_refl |}.
Definition md5_of_empty : md5_hexdigest :=
  {| hexdigest := "d41d8cd98f00b204e9800998ecf8427e"; hexdigest_length := eq_refl |}.
Definition md5_of_world : md5_hexdigest :=
  {| hexdigest := "7d793037a0760186574b0282f2f435e7"; hexdigest_length := eq_refl |}.

(** MD5 on the contents the examples use. *)
Definition md5 (s : string) : md5_hexdigest :=
  if String.eqb s "hello" then md5_of_hello
  else if String.eqb s "world" then md5_of_world
  else md5_of_empty.

(** [.*\.css] and [app/] *)
Definition css_pattern : regex := re_cat (re_star re_any) (re_lit ".css").
Definition app_pattern : regex := re_lit "app/".

Definition rule_A : regex * gmap string string := (css_pattern, {[ "X" := "1" ]}).
Definition rule_B : regex * gmap string string :=
  (app_pattern, {[ "X" := "2"; "Y" := "3" ]}).

#[export] Instance imports : Imports :=
  {| pattern := regex;
     re_match := regex_match;
     HEADER_PATTERNS := [rule_A; rule_B];
     get_checksum := md5;
     guess_type := fun name =>
       if endswith name ".txt" then Some "text/plain"
       else if endswith name ".css" then Some "text/css"
       else None;
     CUMULUS := CUMULUS_defaults |}.

(** A client built with credentials and a container, the defaults else. *)
Definition storage : CloudFilesStorage.t :=
  {| CloudFilesStorage.api_key := Some "key";
     CloudFilesStorage.container_name := Some "media";
     CloudFilesStorage.max_retries := 5;
     CloudFilesStorage.pyrax_identity_type := "keystone";
     CloudFilesStorage.timeout := 5;
     CloudFilesStorage.ttl := 86400;
     CloudFilesStorage.use_ssl := false;
     CloudFilesStorage.username := Some "user";
     CloudFilesStorage._container_public_uri := None |}.

(** A container with three objects; for [old.txt] the service reports an
    empty checksum. *)
Definition container : gmap string stored :=
  {[ "a.txt" := {| s_etag := Some "5d41402abc4b2a76b9719d911017c592";
                   s_total_bytes := 5; s_bytes := "hello" |};
     "css/site.css" := {| s_etag := Some "7d793037a0760186574b0282f2f435e7";
                          s_total_bytes := 5; s_bytes := "world" |};
     "old.txt" := {| s_etag := Some EmptyString;
                     s_total_bytes := 5; s_bytes := "hello" |} ]}.

(** A world where the next pyrax calls meet the failures [fs]. *)
Definition world_with (o : gmap string stored) (fs : list (option exn)) : world :=
  {| objects := o; faults := fs; calls := []; log := [] |}.

(** An open, seekable in-memory file holding [bytes]. *)
Definition file_of (bytes : string) : content :=
  {| c_bytes := bytes; c_pos := 0; c_closed := false; c_on_disk := false;
     c_seekable := true; c_file_content_type := None; c_content_type := None |}.

(** A stream on [a.txt] whose handle has been resolved. *)
Definition opened_stream : CloudFilesStorageFile.t :=
  {| CloudFilesStorageFile._container := storage;
     CloudFilesStorageFile.name := "a.txt";
     CloudFilesStorageFile._size := None;
     CloudFilesStorageFile._file := Some (handle "a.txt"
        {| s_etag := Some "5d41402abc4b2a76b9719d911017c592";
           s_total_bytes := 5; s_bytes := "hello" |});
     CloudFilesStorageFile._pos := Some 0 |}.

End Scenario.

(** ** The rest of class CloudFilesStorage *)

(** A value a Python dictionary holds, as far as the module looks at it. *)
Inductive pyvalue : Type :=
| PNone
| PBool (b : bool)
| PInt (z : Z)
| PStr (s : string)
| PEmptyDict
| PEmptyList
| PObject (repr : string).

#[global] Instance pyvalue_eq_dec : EqDecision pyvalue.
Proof. solve_decision. Defined.

(** A string or [None]. *)
Definition str_or_none (o : option string) : pyvalue :=
  match o with
  | Some s => PStr s
  | None => PNone
  end.

(** [_save]'s test on the object found: [cloud_obj.etag and cloud_obj.etag
    == etag], on what the container holds under the name. *)
Definition up_to_date (o : gmap string stored) (name etag_ : string) : bool :=
  match o !! name with
  | Some x => truthy (s_etag x) && py_eq (s_etag x) etag_
  | None => false
  end.

(** [pyrax.cloudfiles], the calls on containers. *)
Module Pyrax.

(** A container of the account: its two CDN addresses, and the TTL it was
    made public with, if it was. *)
Record container_info : Type := {
  info_cdn_uri : string;
  info_cdn_ssl_uri : string;
  info_public_ttl : option Z }.

(** A pyrax [Container]: the handle [get_container] returns. *)
Record container : Type := {
  name : string;
  cdn_uri : string;
  cdn_ssl_uri : string }.

Inductive call : Type :=
| call_get_container (name : option string)
| call_make_container_public (name : string) (ttl : Z).

(** The account: its containers, the failures the next calls will meet
    (as in [world]) and the calls made so far. *)
Record account : Type := {
  containers : gmap string container_info;
  faults : list (option exn);
  calls : list call }.

Definition remote {A} (c : call)
    (op : gmap string container_info -> result A * gmap string container_info) :
    M account A :=
  fun a =>
    match faults a with
    | Some e :: fs =>
        (Raise e, {| containers := containers a; faults := fs; calls := calls a ++ [c] |})
    | fs =>
        match op (containers a) with
        | (r, cs) => (r, {| containers := cs; faults := tail fs; calls := calls a ++ [c] |})
        end
    end.

(** [pyrax.cloudfiles.get_container(name)]; [OtherError] stands for
    [pyrax.exceptions.NoSuchContainer]. *)
Definition get_container (name_ : option string) : M account container :=
  remote (call_get_container name_)
    (fun cs =>
       match name_ with
       | Some n =>
           match cs !! n with
           | Some i => (Ok {| name := n; cdn_uri := info_cdn_uri i;
                              cdn_ssl_uri := info_cdn_ssl_uri i |}, cs)
           | None => (Raise OtherError, cs)
           end
       | None => (Raise OtherError, cs)
       end).

(** [pyrax.cloudfiles.make_container_public(name, ttl=ttl)] *)
Definition make_container_public (name_ : string) (ttl : Z) : M account unit :=
  remote (call_make_container_public name_ ttl)
    (fun cs =>
       match cs !! name_ with
       | Some i => (Ok tt, <[name_ := {| info_cdn_uri := info_cdn_uri i;
                                         info_cdn_ssl_uri := info_cdn_ssl_uri i;
                                         info_public_ttl := Some ttl |}]> cs)
       | None => (Raise OtherError, cs)
       end).

(** The account after a call that failed, or that changed no container. *)
Definition after_call (c : call) (a : account) : account :=
  {| containers := containers a; faults := tail (faults a); calls := calls a ++ [c] |}.

End Pyrax.

(** The methods of [CloudFilesStorage] on its container handle and its
    public address; the state holds the account and the instance. *)
Module CloudFilesStorageContainer.

(** The instance: the attributes of [CloudFilesStorage.t], and [_container]
    ([None]: the attribute is not set). *)
Record t : Type := {
  self : CloudFilesStorage.t;
  _container : option Pyrax.container }.

Definition set_public_uri (u : option string) (s : CloudFilesStorage.t) :
    CloudFilesStorage.t :=
  {| CloudFilesStorage.api_key := CloudFilesStorage.api_key s;
     CloudFilesStorage.container_name := CloudFilesStorage.container_name s;
     CloudFilesStorage.max_retries := CloudFilesStorage.max_retries s;
     CloudFilesStorage.pyrax_identity_type := CloudFilesStorage.pyrax_identity_type s;
     CloudFilesStorage.timeout := CloudFilesStorage.timeout s;
     CloudFilesStorage.ttl := CloudFilesStorage.ttl s;
     CloudFilesStorage.use_ssl := CloudFilesStorage.use_ssl s;
     CloudFilesStorage.username := CloudFilesStorage.username s;
     CloudFilesStorage._container_public_uri := u |}.

(** A client as [__init__] leaves it: no container handle yet. *)
Definition new (s : CloudFilesStorage.t) : t := {| self := s; _container := None |}.

Definition __getstate__ (i : t) : gmap string pyvalue :=
  {[ "username" := str_or_none (CloudFilesStorage.username (self i));
     "api_key" := str_or_none (CloudFilesStorage.api_key (self i));
     "container_name" := str_or_none (CloudFilesStorage.container_name (self i));
     "timeout" := PInt (CloudFilesStorage.timeout (self i)) ]}.

Definition _get_container : M (Pyrax.account * t) Pyrax.container :=
  let* i := gets snd in
  match _container i with
  | Some c => ret c
  | None =>
      let* c := on_fst (Pyrax.get_container (CloudFilesStorage.container_name (self i))) in
      modify (fun st => (fst st, {| self := self (snd st); _container := Some c |})) ;;
      ret c
  end.

Definition _set_container (container : Pyrax.container) : M (Pyrax.account * t) unit :=
  let* i := gets snd in
  on_fst (Pyrax.make_container_public (Pyrax.name container)
            (CloudFilesStorage.ttl (self i))) ;;
  (* if hasattr(self, '_container_public_uri'): delattr(...) *)
  modify (fun st => (fst st, {| self := set_public_uri None (self (snd st));
                                _container := _container (snd st) |})) ;;
  modify (fun st => (fst st, {| self := self (snd st); _container := Some container |})).

Definition container_url : M (Pyrax.account * t) string :=
  let* i := gets snd in
  match CloudFilesStorage._container_public_uri (self i) with
  | Some u => ret u
  | None =>
      let* c := _get_container in
      let u := if CloudFilesStorage.use_ssl (self i) then Pyrax.cdn_ssl_uri c
               else Pyrax.cdn_uri c in
      modify (fun st => (fst st, {| self := set_public_uri (Some u) (self (snd st));
                                    _container := _container (snd st) |})) ;;
      ret u
  end.

(** ['{container_url}/{name}'.format(...)] *)
Definition url (name : string) : M (Pyrax.account * t) string :=
  let* u := container_url in
  ret (u ++ "/" ++ name).

(** [_open]: the mode is not looked at. *)
Definition _open (s : CloudFilesStorage.t) (name : string) : CloudFilesStorageFile.t :=
  CloudFilesStorageFile.__init__ s name.

End CloudFilesStorageContainer.

(** An account with the container of [Scenario.storage], CDN-enabled. *)
Module AccountScenario.

Definition media : Pyrax.container_info :=
  {| Pyrax.info_cdn_uri := "http://cdn.example.com";
     Pyrax.info_cdn_ssl_uri := "https://ssl.example.com";
     Pyrax.info_public_ttl := None |}.

Definition account_with (fs : list (option exn)) : Pyrax.account :=
  {| Pyrax.containers := {[ "media" := media ]};
     Pyrax.faults := fs;
     Pyrax.calls := [] |}.

Definition client : CloudFilesStorageContainer.t :=
  CloudFilesStorageContainer.new Scenario.storage.

(** The handle of another container of the account. *)
Definition static : Pyrax.container :=
  {| Pyrax.name := "static";
     Pyrax.cdn_uri := "http://static.example.com";
     Pyrax.cdn_ssl_uri := "https://static.example.com" |}.

Definition static_info : Pyrax.container_info :=
  {| Pyrax.info_cdn_uri := "http://static.example.com";
     Pyrax.info_cdn_ssl_uri := "https://static.example.com";
     Pyrax.info_public_ttl := None |}.

Definition two_containers (fs : list (option exn)) : Pyrax.account :=
  {| Pyrax.containers := {[ "media" := media; "static" := static_info ]};
     Pyrax.faults := fs;
     Pyrax.calls := [] |}.

End AccountScenario.

(** ** cumulus/settings.py *)

Module Settings.

(** [django.conf.settings], as far as the module looks at it:
    [settings.CUMULUS] when it is there, and the other attributes. *)
Record django_settings : Type := {
  CUMULUS_attr : option (gmap string pyvalue);
  attrs : gmap string pyvalue }.

(** The dictionary the module starts from. *)
Definition defaults : gmap string pyvalue :=
  list_to_map
    [ ("API_KEY", PNone);
      ("CNAMES", PNone);
      ("CONTAINER", PNone);
      ("SERVICENET", PBool false);
      ("TIMEOUT", PInt 5);
      ("MAX_RETRIES", PInt 5);
      ("CONNECTION_ARGS", PEmptyDict);
      ("TTL", PInt 86400);
      ("USE_SSL", PBool false);
      ("USERNAME", PNone);
      ("STATIC_CONTAINER", PNone);
      ("FILTER_LIST", PEmptyList);
      ("HEADERS", PEmptyDict);
      ("PYRAX_IDENTITY_TYPE", PStr "keystone") ].

(** [hasattr(settings, name)] *)
Definition hasattr (s : django_settings) (name : string) : bool :=
  bool_decide (is_Some (attrs s !! name)).

(** [getattr(settings, name)] and [getattr(settings, name, default)] *)
Definition getattr {St} (s : django_settings) (name : string) : M St pyvalue :=
  match attrs s !! name with
  | Some v => ret v
  | None => raise AttributeError
  end.

Definition getattr_default (s : django_settings) (name : string) (d : pyvalue) : pyvalue :=
  match attrs s !! name with
  | Some v => v
  | None => d
  end.

(** [d1.update(d2)] *)
Definition update (d1 d2 : gmap string pyvalue) : gmap string pyvalue := d2 ∪ d1.

(** The keys the dictionary literal of the old-style branch gives, in its
    order. *)
Definition old_style (s : django_settings) : M (list string) (gmap string pyvalue) :=
  let* api_key := getattr s "CUMULUS_API_KEY" in
  let cnames := getattr_default s "CUMULUS_CNAMES" PNone in
  let* container := getattr s "CUMULUS_CONTAINER" in
  let servicenet := getattr_default s "CUMULUS_USE_SERVICENET" (PBool false) in
  let timeout := getattr_default s "CUMULUS_TIMEOUT" (PInt 5) in
  let ttl := getattr_default s "CUMULUS_TTL" (PInt 8400) in
  let* username := getattr s "CUMULUS_USERNAME" in
  ret ({[ "API_KEY" := api_key;
          "CNAMES" := cnames;
          "CONTAINER" := container;
          "SERVICENET" := servicenet;
          "TIMEOUT" := timeout;
          "TTL" := ttl;
          "USERNAME" := username ]} : gmap string pyvalue).

(** The module body: the value of [CUMULUS] when the import ends, or the
    exception that ends it; the state is the list of warnings issued. *)
Definition CUMULUS (s : django_settings) : M (list string) (gmap string pyvalue) :=
  let CUMULUS0 := defaults in
  let CUMULUS1 :=
    match CUMULUS_attr s with
    | Some d => update CUMULUS0 d
    | None => CUMULUS0
    end in
  if negb (bool_decide (is_Some (CUMULUS_attr s))) && hasattr s "CUMULUS_API_KEY" then
    modify (fun ws =>
              (ws ++ ["settings.CUMULUS_* is deprecated; use settings.CUMULUS instead."])%list) ;;
    let* d := old_style s in
    ret (update CUMULUS1 d)
  else ret CUMULUS1.

(** The keys storage.py reads from [CUMULUS] with a subscript when it is
    imported. *)
Definition keys_read_by_storage : list string :=
  ["API_KEY"; "CONTAINER"; "MAX_RETRIES"; "PYRAX_IDENTITY_TYPE"; "TIMEOUT"; "TTL";
   "USE_SSL"; "USERNAME"; "STATIC_CONTAINER"].

End Settings.

(** * Theorems *)

Local Open Scope list_scope.

(** ** The retry loop *)

Section retry_facts.
Context {St A : Type}.
Variable max_retries : Z.
Variable attempt : M St A.
Variable handler : exn -> except_clause A.
Variable on_retry : exn -> Z -> St -> St.
Variable on_success : St -> St.

Local Abbreviation loop := (retry_loop max_retries attempt handler on_retry on_success).

(** The loop, one turn unfolded. *)
Lemma retry_loop_turn (tries : Z) (s : St) :
  loop tries s =
  match attempt s with
  | (Ok a, s1) => (Ok a, on_success s1)
  | (Raise e, s1) =>
      match handler e with
      | Swallow a => (Ok a, s1)
      | Propagate => (Raise e, s1)
      | Retry =>
          if Z_ge_lt_dec tries max_retries then (Raise e, s1)
          else loop (tries + 1) (on_retry e (tries + 1) s1)
      end
  end.
Proof.
  funelim (loop tries s);
    repeat match goal with
    | H : attempt _ = _ |- _ => rewrite H; clear H
    | H : handler _ = _ |- _ => rewrite H; clear H
    | H : Z_ge_lt_dec _ _ = _ |- _ => rewrite H; clear H
    end; reflexivity.
Qed.

(** A failure that the counting clause catches, with retries left. *)
Lemma retry_loop_retry (tries : Z) (s s1 : St) (e : exn) :
  attempt s = (Raise e, s1) -> handler e = Retry -> tries < max_retries ->
  loop tries s = loop (tries + 1) (on_retry e (tries + 1) s1).
Proof.
  intros Ha Hh Hlt. rewrite retry_loop_turn, Ha, Hh.
  destruct (Z_ge_lt_dec tries max_retries); [lia | reflexivity].
Qed.

(** The same failure with no retry left. *)
Lemma retry_loop_exhausted (tries : Z) (s s1 : St) (e : exn) :
  attempt s = (Raise e, s1) -> handler e = Retry -> max_retries <= tries ->
  loop tries s = (Raise e, s1).
Proof.
  intros Ha Hh Hge. rewrite retry_loop_turn, Ha, Hh.
  destruct (Z_ge_lt_dec tries max_retries); [reflexivity | lia].
Qed.

Lemma retry_loop_propagate (tries : Z) (s s1 : St) (e : exn) :
  attempt s = (Raise e, s1) -> handler e = Propagate -> loop tries s = (Raise e, s1).
Proof. intros Ha Hh. rewrite retry_loop_turn, Ha, Hh. reflexivity. Qed.

Lemma retry_loop_swallow (tries : Z) (s s1 : St) (e : exn) (a : A) :
  attempt s = (Raise e, s1) -> handler e = Swallow a -> loop tries s = (Ok a, s1).
Proof. intros Ha Hh. rewrite retry_loop_turn, Ha, Hh. reflexivity. Qed.

Lemma retry_loop_success (tries : Z) (s s1 : St) (a : A) :
  attempt s = (Ok a, s1) -> loop tries s = (Ok a, on_success s1).
Proof. intros Ha. rewrite retry_loop_turn, Ha. reflexivity. Qed.

(** Hoare-style rule for the loop: [I] holds before every attempt, [J]
    after it, the retry hook leads from [J] back to [I], and every way out
    of an attempt establishes [Post]. *)
Lemma retry_loop_post (I J : St -> Prop) (Post : result A -> St -> Prop) :
  (forall s r s1, I s -> attempt s = (r, s1) ->
     J s1 /\
     match r with
     | Ok a => Post (Ok a) (on_success s1)
     | Raise e =>
         match handler e with
         | Swallow a => Post (Ok a) s1
         | _ => Post (Raise e) s1
         end
     end) ->
  (forall e n s, J s -> I (on_retry e n s)) ->
  forall tries s, I s -> Post (fst (loop tries s)) (snd (loop tries s)).
Proof.
  intros Hatt Hretry tries s.
  funelim (loop tries s); intros HI.
  all: match goal with Ha : attempt _ = _ |- _ =>
         destruct (Hatt _ _ _ HI Ha) as [HI1 HP] end.
  all: repeat match goal with
       | H : handler _ = _ |- _ => rewrite H in HP; clear H
       end; simpl; auto.
  match goal with IH : forall (I : St -> Prop), _ |- _ => apply (IH I J Post); auto end.
Qed.

End retry_facts.

(** ** Pyrax calls *)

Lemma remote_fault {A} (c : call) (op : gmap string stored -> result A * gmap string stored)
    (w : world) (e : exn) :
  next_fault (faults w) = Some e -> remote c op w = (Raise e, after_call c w).
Proof.
  unfold remote, after_call, next_fault. intros Hf.
  destruct (faults w) as [|[e'|] fs]; try discriminate.
  injection Hf as ->. reflexivity.
Qed.

Lemma remote_through {A} (c : call) (op : gmap string stored -> result A * gmap string stored)
    (w : world) :
  next_fault (faults w) = None ->
  remote c op w =
  (fst (op (objects w)),
   {| objects := snd (op (objects w)); faults := tail (faults w);
      calls := calls w ++ [c]; log := log w |}).
Proof.
  unfold remote, next_fault. intros Hf.
  destruct (faults w) as [|[e'|] fs]; try discriminate;
    destruct (op (objects w)); reflexivity.
Qed.

(** Warnings for attempts [from + 1 .. from + k], one step at a time. *)
Lemma after_failures_0 c what name e max from w :
  after_failures c what name e max from 0 w = w.
Proof.
  destruct w. unfold after_failures. simpl. rewrite !app_nil_r. reflexivity.
Qed.

Lemma after_failures_S c what name e max from k w :
  after_failures c what name e max (from + 1) k
    (logger_warning (warning what name e max (from + 1)) (after_call c w)) =
  after_failures c what name e max from (S k) w.
Proof.
  unfold after_failures, logger_warning, after_call. simpl. f_equal.
  - destruct (faults w); simpl; [by rewrite skipn_nil | reflexivity].
  - rewrite <- app_assoc. reflexivity.
  - rewrite <- app_assoc. simpl. do 2 f_equal.
    rewrite <- (seq_shift k 1), List.map_map. apply List.map_ext.
    intros i. f_equal. lia.
Qed.

Lemma skipn_repeat_app {X} (x : X) (k : nat) (l : list X) :
  skipn k (repeat x k ++ l) = l.
Proof. induction k; simpl; auto. Qed.

(** A loop over a pyrax call that acts on the world alone: after [k]
    failures that the counting clause catches, with retries left for all
    of them, the loop stands at [tries + k], past [k] calls and [k]
    warnings. *)
Section world_loop.
Context {A : Type}.
Variable max : Z.
Variable c : call.
Variable op : gmap string stored -> result A * gmap string stored.
Variable handler : exn -> except_clause A.
Variables what name : string.

Local Abbreviation wloop :=
  (retry_loop max (remote c op) handler
     (fun e tries => logger_warning (warning what name e max tries)) (fun w => w)).

Lemma world_loop_failures (e : exn) (k : nat) :
  handler e = Retry ->
  forall tries w fs,
    faults w = repeat (Some e) k ++ fs ->
    tries + Z.of_nat k <= max ->
    wloop tries w =
    wloop (tries + Z.of_nat k) (after_failures c what name e max tries k w).
Proof.
  intros Hh. induction k as [|k IH]; intros tries w fs Hf Hle.
  - rewrite after_failures_0. f_equal. lia.
  - rewrite (retry_loop_retry _ _ _ _ _ tries w (after_call c w) e); [| |assumption|lia].
    + rewrite (IH (tries + 1) _ fs); [| |lia].
      * rewrite after_failures_S. f_equal. lia.
      * simpl. rewrite Hf. reflexivity.
    + apply remote_fault. rewrite Hf. reflexivity.
Qed.

(** [max + 1] failures: the last one is raised, and it has no warning. *)
Lemma world_loop_exhausted (e : exn) (w : world) (fs : list (option exn)) :
  handler e = Retry -> 0 <= max ->
  faults w = repeat (Some e) (S (Z.to_nat max)) ++ fs ->
  wloop 0 w =
  (Raise e, after_call c (after_failures c what name e max 0 (Z.to_nat max) w)).
Proof.
  intros Hh Hmax Hf.
  rewrite (world_loop_failures e (Z.to_nat max) Hh 0 w (Some e :: fs)) by
    (try lia; rewrite Hf; change (S (Z.to_nat max)) with (1 + Z.to_nat max)%nat;
     rewrite Nat.add_comm, repeat_app, <- app_assoc; reflexivity).
  eapply retry_loop_exhausted; [|exact Hh|lia].
  apply remote_fault. simpl. rewrite Hf. simpl.
  change (Some e :: repeat (Some e) (Z.to_nat max) ++ fs)
    with (repeat (Some e) (S (Z.to_nat max)) ++ fs).
  replace (S (Z.to_nat max)) with (Z.to_nat max + 1)%nat by lia.
  rewrite repeat_app, <- app_assoc, skipn_repeat_app. reflexivity.
Qed.

End world_loop.

(** ** Counting failures and warnings *)

Lemma failures_observed_app (w w' : world) (l : list (option exn)) :
  faults w = l ++ faults w' ->
  failures_observed w w' = length (List.filter is_fault l).
Proof.
  intros Hf. unfold failures_observed. rewrite Hf, length_app.
  replace (length l + length (faults w') - length (faults w'))%nat with (length l) by lia.
  rewrite firstn_app, firstn_all, Nat.sub_diag. simpl. rewrite app_nil_r. reflexivity.
Qed.

Lemma attempts_logged_app (w w' : world) (l : list log_record) :
  log w' = log w ++ l -> attempts_logged w w' = length l.
Proof. intros Hl. unfold attempts_logged. rewrite Hl, length_app. lia. Qed.

Lemma after_failures_logged c what name e max from k w :
  attempts_logged w (after_failures c what name e max from k w) = k.
Proof.
  erewrite attempts_logged_app; [|reflexivity].
  rewrite length_map, length_seq. reflexivity.
Qed.

(** ** The upload loop of [_save] *)

Lemma rewind_restores (c : content) (n : nat) :
  c_pos c = 0%nat -> content_seek0 (set_pos n c) = c.
Proof. destruct c; simpl; intros ->; reflexivity. Qed.

Lemma upload_file_fault name ct et hd (w : world) (c : content) (e : exn) :
  next_fault (faults w) = Some e ->
  upload_file name ct et hd (w, c) =
  (Raise e, (after_call (upload_call name ct et hd c) w,
             set_pos (String.length (c_bytes c)) c)).
Proof.
  intros Hf. unfold upload_file. simpl.
  rewrite (remote_fault _ _ _ e Hf). reflexivity.
Qed.

Lemma upload_file_through name ct et hd (w : world) (c : content) :
  next_fault (faults w) = None ->
  upload_file name ct et hd (w, c) =
  (Ok (handle name (uploaded et c)),
   ({| objects := <[name := uploaded et c]> (objects w); faults := tail (faults w);
       calls := calls w ++ [upload_call name ct et hd c]; log := log w |},
    set_pos (String.length (c_bytes c)) c)).
Proof.
  intros Hf. unfold upload_file. simpl.
  rewrite (remote_through _ _ _ Hf). reflexivity.
Qed.

(** ** C1: bounded retries and the warnings logged *)

Lemma fetch_handler_retry {A} (e : exn) :
  catches [HTTPException; SSLError; ServiceResponseFailure] e = true ->
  @CloudFilesStorage.fetch_handler A e = Retry.
Proof. unfold CloudFilesStorage.fetch_handler. intros ->. reflexivity. Qed.

Lemma delete_handler_retry (e : exn) :
  catches [HTTPException; SSLError; ServiceResponseFailure] e = true ->
  CloudFilesStorage.delete_handler e = Retry.
Proof. destruct e; simpl; try discriminate; reflexivity. Qed.

(** ** Runs of failures of several classes *)

Lemma after_errors_nil c what name max from w :
  after_errors c what name max from [] w = w.
Proof.
  destruct w. unfold after_errors. simpl. rewrite !app_nil_r. reflexivity.
Qed.

Lemma after_errors_cons c what name max from e es w :
  after_errors c what name max (from + 1) es
    (logger_warning (warning what name e max (from + 1)) (after_call c w)) =
  after_errors c what name max from (e :: es) w.
Proof.
  unfold after_errors, logger_warning, after_call. simpl. f_equal.
  - destruct (faults w); simpl; [by rewrite skipn_nil | reflexivity].
  - rewrite <- app_assoc. reflexivity.
  - rewrite <- app_assoc. reflexivity.
Qed.

Lemma skipn_map_app {X Y} (g : X -> Y) (l : list X) (l' : list Y) :
  skipn (length l) (List.map g l ++ l') = l'.
Proof. induction l; simpl; auto. Qed.

Lemma map_Some_snoc (es : list exn) (e : exn) (fs : list (option exn)) :
  List.map Some (es ++ [e]) ++ fs = List.map Some es ++ Some e :: fs.
Proof. rewrite List.map_app, <- app_assoc. reflexivity. Qed.

(** A loop over a pyrax call that acts on the world alone, through a run
    of failures that the counting clause catches, of one class or of
    several, with retries left for all of them. *)
Section world_loop_errors.
Context {A : Type}.
Variable max : Z.
Variable c : call.
Variable op : gmap string stored -> result A * gmap string stored.
Variable handler : exn -> except_clause A.
Variables what name : string.

Local Abbreviation wloop :=
  (retry_loop max (remote c op) handler
     (fun e tries => logger_warning (warning what name e max tries)) (fun w => w)).

Lemma world_loop_errors (es : list exn) :
  Forall (fun e => handler e = Retry) es ->
  forall tries w fs,
    faults w = List.map Some es ++ fs ->
    tries + Z.of_nat (length es) <= max ->
    wloop tries w =
    wloop (tries + Z.of_nat (length es)) (after_errors c what name max tries es w).
Proof.
  induction 1 as [|e es He _ IH]; intros tries w fs Hf Hle.
  - rewrite after_errors_nil. f_equal. simpl. lia.
  - simpl length in *.
    rewrite (retry_loop_retry _ _ _ _ _ tries w (after_call c w) e); [| |assumption|lia].
    + rewrite (IH (tries + 1) _ fs); [| |lia].
      * rewrite after_errors_cons. f_equal. lia.
      * simpl. rewrite Hf. reflexivity.
    + apply remote_fault. rewrite Hf. reflexivity.
Qed.

(** The call that follows the run, when it meets no failure. *)
Lemma remote_after_errors (es : list exn) (w : world) (fs : list (option exn))
    (r : result A) (o : gmap string stored) :
  faults w = List.map Some es ++ fs -> next_fault fs = None ->
  op (objects w) = (r, o) ->
  remote c op (after_errors c what name max 0 es w) =
  (r, {| objects := o; faults := tail fs;
         calls := calls w ++ repeat c (S (length es));
         log := log w ++ warnings what name max 0 es |}).
Proof.
  intros Hf Hnext Hop.
  rewrite remote_through; simpl; rewrite Hf, skipn_map_app; [|assumption].
  rewrite Hop. simpl. do 2 f_equal.
  rewrite <- app_assoc. f_equal. symmetry. apply repeat_cons.
Qed.

Lemma world_loop_errors_then_success (es : list exn) (w : world)
    (fs : list (option exn)) (a : A) (o : gmap string stored) :
  Forall (fun e => handler e = Retry) es -> Z.of_nat (length es) <= max ->
  faults w = List.map Some es ++ fs -> next_fault fs = None ->
  op (objects w) = (Ok a, o) ->
  wloop 0 w =
  (Ok a, {| objects := o; faults := tail fs;
            calls := calls w ++ repeat c (S (length es));
            log := log w ++ warnings what name max 0 es |}).
Proof.
  intros Hh Hlen Hf Hnext Hop.
  rewrite (world_loop_errors es Hh 0 w fs Hf) by lia.
  erewrite retry_loop_success; [reflexivity|].
  apply (remote_after_errors es w fs (Ok a) o); assumption.
Qed.

Lemma world_loop_errors_then_swallow (es : list exn) (e' : exn) (w : world)
    (fs : list (option exn)) (a : A) (o : gmap string stored) :
  Forall (fun e => handler e = Retry) es -> Z.of_nat (length es) <= max ->
  faults w = List.map Some es ++ fs -> next_fault fs = None ->
  op (objects w) = (Raise e', o) -> handler e' = Swallow a ->
  wloop 0 w =
  (Ok a, {| objects := o; faults := tail fs;
            calls := calls w ++ repeat c (S (length es));
            log := log w ++ warnings what name max 0 es |}).
Proof.
  intros Hh Hlen Hf Hnext Hop Hh'.
  rewrite (world_loop_errors es Hh 0 w fs Hf) by lia.
  erewrite retry_loop_swallow; [reflexivity| |exact Hh'].
  apply (remote_after_errors es w fs (Raise e') o); assumption.
Qed.

(** [max] failures and one more: the last one is raised, whatever the ones
    before it were, and it has no warning. *)
Lemma world_loop_errors_exhausted (es : list exn) (e_last : exn) (w : world)
    (fs : list (option exn)) :
  Forall (fun e => handler e = Retry) es -> handler e_last = Retry ->
  Z.of_nat (length es) = max ->
  faults w = List.map Some (es ++ [e_last]) ++ fs ->
  wloop 0 w = (Raise e_last, after_call c (after_errors c what name max 0 es w)).
Proof.
  intros Hh Hlast Hlen Hf. rewrite map_Some_snoc in Hf.
  rewrite (world_loop_errors es Hh 0 w (Some e_last :: fs) Hf) by lia.
  eapply retry_loop_exhausted; [|exact Hlast|lia].
  apply remote_fault. simpl. rewrite Hf, skipn_map_app. reflexivity.
Qed.

End world_loop_errors.

(** The failures observed and the errors logged over such a run. *)
Lemma filter_is_fault_map_Some (es : list exn) :
  List.filter is_fault (List.map Some es) = List.map Some es.
Proof. induction es; simpl; congruence. Qed.

Lemma errors_then_through (w w' : world) (es : list exn) (fs : list (option exn)) :
  faults w = List.map Some es ++ fs -> next_fault fs = None -> faults w' = tail fs ->
  failures_observed w w' = length es.
Proof.
  intros Hf Hn Ht. destruct fs as [|[e'|] fs]; try discriminate; simpl in Ht.
  - rewrite (failures_observed_app w w' (List.map Some es)) by (rewrite Hf, Ht; reflexivity).
    rewrite filter_is_fault_map_Some, length_map. reflexivity.
  - rewrite (failures_observed_app w w' (List.map Some es ++ [None])).
    + rewrite List.filter_app, filter_is_fault_map_Some. simpl.
      rewrite app_nil_r, length_map. reflexivity.
    + rewrite Hf, Ht, <- app_assoc. reflexivity.
Qed.

Lemma errors_all (w w' : world) (es : list exn) (fs : list (option exn)) :
  faults w = List.map Some es ++ fs -> faults w' = fs ->
  failures_observed w w' = length es.
Proof.
  intros Hf Ht.
  rewrite (failures_observed_app w w' (List.map Some es)) by (rewrite Hf, Ht; reflexivity).
  rewrite filter_is_fault_map_Some, length_map. reflexivity.
Qed.

Lemma warnings_length what name max from es :
  length (warnings what name max from es) = length es.
Proof. revert from. induction es; intros from; simpl; auto. Qed.

Lemma warnings_errors what name max from es :
  List.map log_exn (warnings what name max from es) = es.
Proof. revert from. induction es; intros from; simpl; [|rewrite IHes]; reflexivity. Qed.

Lemma logged_after (w w' : world) what name max es :
  log w' = log w ++ warnings what name max 0 es ->
  attempts_logged w w' = length es /\ errors_logged w w' = es.
Proof.
  intros Hl. split.
  - rewrite (attempts_logged_app w w' _ Hl). apply warnings_length.
  - unfold errors_logged. rewrite Hl.
    rewrite <- (List.map_id (log w)) at 2. rewrite skipn_map_app.
    apply warnings_errors.
Qed.

(** The upload loop through such a run: after each failure the content,
    seekable and at its start before the call, is rewound. *)
Section upload_loop_errors.
Variable self : CloudFilesStorage.t.
Variable name : string.
Variable ct : option string.
Variable et : string.
Variable hd : gmap string string.

Local Abbreviation uloop := (CloudFilesStorage._save_upload_loop self name ct et hd).
Local Abbreviation max := (CloudFilesStorage.max_retries self).
Local Abbreviation sending c := (upload_call name ct et hd c).
Local Abbreviation retried_by_upload e :=
  (catches [HTTPException; SSLError; ServiceResponseFailure; socket_error] e = true).

Lemma upload_loop_errors (es : list exn) :
  Forall (fun e => retried_by_upload e) es ->
  forall tries w c fs,
    c_seekable c = true -> c_pos c = 0%nat ->
    faults w = List.map Some es ++ fs ->
    tries + Z.of_nat (length es) <= max ->
    uloop tries (w, c) =
    uloop (tries + Z.of_nat (length es))
      (after_errors (sending c) "send" name max tries es w, c).
Proof.
  induction 1 as [|e es He _ IH]; intros tries w c fs Hseek Hpos Hf Hle.
  - rewrite after_errors_nil. f_equal. simpl. lia.
  - simpl length in *. unfold CloudFilesStorage._save_upload_loop.
    erewrite retry_loop_retry;
      [| apply upload_file_fault; rewrite Hf; reflexivity
       | unfold CloudFilesStorage.upload_handler; rewrite He; reflexivity
       | lia].
    cbn [fst snd].
    replace (c_seekable (set_pos (String.length (c_bytes c)) c)) with true
      by (destruct c; simpl in *; congruence).
    rewrite rewind_restores by assumption.
    fold (uloop (tries + 1)).
    rewrite (IH (tries + 1) _ c fs); [| assumption | assumption | | lia].
    + pose proof (after_errors_cons (sending c) "send" name max tries e es w) as E.
      unfold warning in E. rewrite E.
      replace (tries + 1 + Z.of_nat (length es)) with (tries + Z.of_nat (S (length es)))
        by lia.
      reflexivity.
    + simpl. rewrite Hf. reflexivity.
Qed.

Lemma upload_errors_then_success (es : list exn) (w : world) (c : content)
    (fs : list (option exn)) :
  Forall (fun e => retried_by_upload e) es -> Z.of_nat (length es) <= max ->
  c_seekable c = true -> c_pos c = 0%nat ->
  faults w = List.map Some es ++ fs -> next_fault fs = None ->
  uloop 0 (w, c) =
  (Ok (handle name (uploaded et c)),
   ({| objects := <[name := uploaded et c]> (objects w); faults := tail fs;
       calls := calls w ++ repeat (sending c) (S (length es));
       log := log w ++ warnings "send" name max 0 es |},
    set_pos (String.length (c_bytes c)) c)).
Proof.
  intros He Hlen Hseek Hpos Hf Hnext.
  rewrite (upload_loop_errors es He 0 w c fs) by (assumption || lia).
  unfold CloudFilesStorage._save_upload_loop.
  erewrite retry_loop_success;
    [| apply upload_file_through; simpl; rewrite Hf, skipn_map_app; assumption].
  simpl. rewrite Hf, skipn_map_app. do 3 f_equal.
  rewrite <- app_assoc. f_equal. symmetry. apply repeat_cons.
Qed.

Lemma upload_errors_exhausted (es : list exn) (e_last : exn) (w : world) (c : content)
    (fs : list (option exn)) :
  Forall (fun e => retried_by_upload e) es -> retried_by_upload e_last ->
  Z.of_nat (length es) = max ->
  c_seekable c = true -> c_pos c = 0%nat ->
  faults w = List.map Some (es ++ [e_last]) ++ fs ->
  uloop 0 (w, c) =
  (Raise e_last,
   (after_call (sending c) (after_errors (sending c) "send" name max 0 es w),
    set_pos (String.length (c_bytes c)) c)).
Proof.
  intros He Hlast Hlen Hseek Hpos Hf. rewrite map_Some_snoc in Hf.
  rewrite (upload_loop_errors es He 0 w c (Some e_last :: fs)) by (assumption || lia).
  unfold CloudFilesStorage._save_upload_loop.
  eapply retry_loop_exhausted;
    [ apply upload_file_fault; simpl; rewrite Hf, skipn_map_app; reflexivity
    | unfold CloudFilesStorage.upload_handler; rewrite Hlast; reflexivity
    | lia ].
Qed.

End upload_loop_errors.

(** C1 (amended).  For the metadata fetch, the delete and the upload, with
    [max_retries >= 0], and for failures of the remote call of the classes
    the operation retries, of one class or of several.  When the call fails
    at most [max_retries] times, exactly [max_retries] times included, and
    then succeeds, the operation returns success, and the warnings logged
    are as many as the failures observed: one for each error, in order.
    When it fails [max_retries + 1] times, the operation raises the last of
    these errors itself, whatever the earlier ones were, having logged the
    [max_retries] errors before it: one warning fewer than the failures
    observed. *)
Theorem retry_bound_and_warnings (self : CloudFilesStorage.t) (name : string)
    (es : list exn) (w : world) (fs : list (option exn)) :
  0 <= CloudFilesStorage.max_retries self ->
  let n := Z.to_nat (CloudFilesStorage.max_retries self) in
  (Forall (fun e => catches [HTTPException; SSLError; ServiceResponseFailure] e = true) es ->
     (forall x,
        (length es <= n)%nat ->
        faults w = List.map Some es ++ fs -> next_fault fs = None ->
        objects w !! name = Some x ->
        exists w',
          CloudFilesStorage._get_cloud_obj self name w = (Ok (handle name x), w') /\
          failures_observed w w' = length es /\ attempts_logged w w' = length es /\
          errors_logged w w' = es) /\
     (forall e_last,
        catches [HTTPException; SSLError; ServiceResponseFailure] e_last = true ->
        length es = n ->
        faults w = List.map Some (es ++ [e_last]) ++ fs ->
        exists w',
          CloudFilesStorage._get_cloud_obj self name w = (Raise e_last, w') /\
          failures_observed w w' = S n /\ attempts_logged w w' = n /\
          errors_logged w w' = es)) /\
  (Forall (fun e => catches [HTTPException; SSLError; ServiceResponseFailure] e = true) es ->
     ((length es <= n)%nat ->
        faults w = List.map Some es ++ fs -> next_fault fs = None ->
        exists w',
          CloudFilesStorage.delete self name w = (Ok tt, w') /\
          failures_observed w w' = length es /\ attempts_logged w w' = length es /\
          errors_logged w w' = es) /\
     (forall e_last,
        catches [HTTPException; SSLError; ServiceResponseFailure] e_last = true ->
        length es = n ->
        faults w = List.map Some (es ++ [e_last]) ++ fs ->
        exists w',
          CloudFilesStorage.delete self name w = (Raise e_last, w') /\
          failures_observed w w' = S n /\ attempts_logged w w' = n /\
          errors_logged w w' = es)) /\
  (Forall (fun e => catches [HTTPException; SSLError; ServiceResponseFailure; socket_error] e
                    = true) es ->
     forall (c : content) ct et hd,
       c_seekable c = true -> c_pos c = 0%nat ->
       ((length es <= n)%nat ->
          faults w = List.map Some es ++ fs -> next_fault fs = None ->
          exists st',
            CloudFilesStorage._save_upload_loop self name ct et hd 0 (w, c) =
              (Ok (handle name (uploaded et c)), st') /\
            failures_observed w (fst st') = length es /\
            attempts_logged w (fst st') = length es /\
            errors_logged w (fst st') = es) /\
       (forall e_last,
          catches [HTTPException; SSLError; ServiceResponseFailure; socket_error] e_last
          = true ->
          length es = n ->
          faults w = List.map Some (es ++ [e_last]) ++ fs ->
          exists st',
            CloudFilesStorage._save_upload_loop self name ct et hd 0 (w, c) =
              (Raise e_last, st') /\
            failures_observed w (fst st') = S n /\ attempts_logged w (fst st') = n /\
            errors_logged w (fst st') = es)).
Proof.
  intros Hmax n.
  assert (Hfetch_h : forall es0,
            Forall (fun e => catches [HTTPException; SSLError; ServiceResponseFailure] e
                             = true) es0 ->
            Forall (fun e => @CloudFilesStorage.fetch_handler cloud_obj e = Retry) es0).
  { intros es0 H0. eapply Forall_impl; [exact H0|]. intros e. apply fetch_handler_retry. }
  assert (Hdelete_h : forall es0,
            Forall (fun e => catches [HTTPException; SSLError; ServiceResponseFailure] e
                             = true) es0 ->
            Forall (fun e => CloudFilesStorage.delete_handler e = Retry) es0).
  { intros es0 H0. eapply Forall_impl; [exact H0|]. intros e. apply delete_handler_retry. }
  assert (Hall : forall e_last w',
            faults w = List.map Some (es ++ [e_last]) ++ fs -> length es = n ->
            faults w' = fs -> failures_observed w w' = S n).
  { intros e_last w' Hf Hlen Hw'.
    rewrite (errors_all w w' (es ++ [e_last]) fs Hf Hw'), length_app. simpl. lia. }
  split; [|split].
  - intros He. split.
    + intros x Hlen Hf Hn Hx. eexists. split; [|split].
      * unfold CloudFilesStorage._get_cloud_obj, CloudFilesStorage._get_cloud_obj_loop,
          get_object.
        apply (world_loop_errors_then_success _ _ _ _ "retrieve" name es w fs
                 (handle name x) (objects w));
          [apply Hfetch_h; exact He | lia | exact Hf | exact Hn |].
        rewrite Hx. reflexivity.
      * eapply errors_then_through; [exact Hf | exact Hn | reflexivity].
      * eapply logged_after. reflexivity.
    + intros e_last Hlast Hlen Hf. eexists. split; [|split].
      * unfold CloudFilesStorage._get_cloud_obj, CloudFilesStorage._get_cloud_obj_loop,
          get_object.
        apply (world_loop_errors_exhausted _ _ _ _ "retrieve" name es e_last w fs);
          [apply Hfetch_h; exact He | apply fetch_handler_retry; exact Hlast | lia
          | exact Hf].
      * apply (Hall e_last); [exact Hf | exact Hlen |].
        simpl. rewrite Hf, map_Some_snoc, skipn_map_app. reflexivity.
      * rewrite <- Hlen. eapply logged_after. reflexivity.
  - intros He. split.
    + intros Hlen Hf Hn.
      assert (Hcase : exists r o, (r = Ok tt \/ r = Raise NoSuchObject) /\
                (match objects w !! name with
                 | Some _ => (Ok tt, base.delete name (objects w))
                 | None => (Raise NoSuchObject, objects w)
                 end) = (r, o)).
      { destruct (objects w !! name); eauto. }
      destruct Hcase as (r & o & [-> | ->] & Hop); eexists; (split; [|split]).
      * unfold CloudFilesStorage.delete, CloudFilesStorage.delete_loop, delete_object.
        apply (world_loop_errors_then_success _ _ _ _ "delete" name es w fs tt o);
          [apply Hdelete_h; exact He | lia | exact Hf | exact Hn | exact Hop].
      * eapply errors_then_through; [exact Hf | exact Hn | reflexivity].
      * eapply logged_after. reflexivity.
      * unfold CloudFilesStorage.delete, CloudFilesStorage.delete_loop, delete_object.
        apply (world_loop_errors_then_swallow _ _ _ _ "delete" name es NoSuchObject
                 w fs tt o);
          [apply Hdelete_h; exact He | lia | exact Hf | exact Hn | exact Hop
          | reflexivity].
      * eapply errors_then_through; [exact Hf | exact Hn | reflexivity].
      * eapply logged_after. reflexivity.
    + intros e_last Hlast Hlen Hf. eexists. split; [|split].
      * unfold CloudFilesStorage.delete, CloudFilesStorage.delete_loop, delete_object.
        apply (world_loop_errors_exhausted _ _ _ _ "delete" name es e_last w fs);
          [apply Hdelete_h; exact He | apply delete_handler_retry; exact Hlast | lia
          | exact Hf].
      * apply (Hall e_last); [exact Hf | exact Hlen |].
        simpl. rewrite Hf, map_Some_snoc, skipn_map_app. reflexivity.
      * rewrite <- Hlen. eapply logged_after. reflexivity.
  - intros He c ct et hd Hseek Hpos. split.
    + intros Hlen Hf Hn. eexists. split; [|split].
      * apply (upload_errors_then_success self name ct et hd es w c fs);
          [exact He | lia | assumption..].
      * eapply errors_then_through; [exact Hf | exact Hn | reflexivity].
      * eapply logged_after. reflexivity.
    + intros e_last Hlast Hlen Hf. eexists. split; [|split].
      * apply (upload_errors_exhausted self name ct et hd es e_last w c fs);
          [exact He | exact Hlast | lia | assumption..].
      * apply (Hall e_last); [exact Hf | exact Hlen |].
        simpl. rewrite Hf, map_Some_snoc, skipn_map_app. reflexivity.
      * rewrite <- Hlen. eapply logged_after. reflexivity.
Qed.

Lemma retry_bound_and_warnings_witness :
  let es := [HTTPException; SSLError; ServiceResponseFailure; SSLError; HTTPException] in
  let w5 := Scenario.world_with Scenario.container (List.map Some es) in
  let w6 := Scenario.world_with Scenario.container
              (List.map Some (es ++ [ServiceResponseFailure])) in
  let u5 := Scenario.world_with Scenario.container
              (List.map Some [socket_error; SSLError; socket_error; HTTPException;
                              ServiceResponseFailure]) in
  (exists w',
     CloudFilesStorage._get_cloud_obj Scenario.storage "a.txt" w5 =
       (Ok (handle "a.txt" {| s_etag := Some "5d41402abc4b2a76b9719d911017c592";
                              s_total_bytes := 5; s_bytes := "hello" |}), w') /\
     failures_observed w5 w' = 5%nat /\ attempts_logged w5 w' = 5%nat /\
     errors_logged w5 w' = es) /\
  (exists w',
     CloudFilesStorage.delete Scenario.storage "a.txt" w6 =
       (Raise ServiceResponseFailure, w') /\
     failures_observed w6 w' = 6%nat /\ attempts_logged w6 w' = 5%nat /\
     errors_logged w6 w' = es) /\
  (exists st',
     CloudFilesStorage._save_upload_loop Scenario.storage "a.txt" None EmptyString ∅ 0
       (u5, Scenario.file_of "hello") =
       (Ok (handle "a.txt" (uploaded EmptyString (Scenario.file_of "hello"))), st') /\
     failures_observed u5 (fst st') = 5%nat /\ attempts_logged u5 (fst st') = 5%nat /\
     errors_logged u5 (fst st') =
       [socket_error; SSLError; socket_error; HTTPException; ServiceResponseFailure]).
Proof.
  intros es w5 w6 u5. split; [|split].
  - destruct (retry_bound_and_warnings Scenario.storage "a.txt" es w5 []
                ltac:(discriminate)) as [Hfetch _].
    destruct (Hfetch ltac:(repeat constructor)) as [Hok _].
    apply Hok; first [reflexivity | vm_compute; lia].
  - destruct (retry_bound_and_warnings Scenario.storage "a.txt" es w6 []
                ltac:(discriminate)) as (_ & Hdelete & _).
    destruct (Hdelete ltac:(repeat constructor)) as [_ Hraise].
    apply Hraise; reflexivity.
  - destruct (retry_bound_and_warnings Scenario.storage "a.txt"
                [socket_error; SSLError; socket_error; HTTPException;
                 ServiceResponseFailure] u5 []
                ltac:(discriminate)) as (_ & _ & Hupload).
    destruct (Hupload ltac:(repeat constructor)
                (Scenario.file_of "hello") None EmptyString ∅ eq_refl eq_refl)
      as [Hok _].
    apply Hok; first [reflexivity | vm_compute; lia].
Defined.

(** C1, as stated, fails: a fetch that fails [max_retries + 1 = 6] times
    raises after 5 warnings, not 6. *)
Lemma exhausted_fetch_logs_fewer_than_failures :
  let w := Scenario.world_with Scenario.container (repeat (Some HTTPException) 6) in
  let r := CloudFilesStorage._get_cloud_obj Scenario.storage "a.txt" w in
  fst r = Raise HTTPException /\
  failures_observed w (snd r) = 6%nat /\
  attempts_logged w (snd r) = 5%nat /\
  attempts_logged w (snd r) <> failures_observed w (snd r).
Proof. vm_compute. repeat split; discriminate. Qed.

(** ** What a fetch leaves behind *)

Lemma remote_cases {A} (c : call) (op : gmap string stored -> result A * gmap string stored)
    (w w' : world) (r : result A) :
  remote c op w = (r, w') ->
  calls w' = calls w ++ [c] /\ log w' = log w /\ faults w' = tail (faults w) /\
  ((exists e, next_fault (faults w) = Some e /\ r = Raise e /\ objects w' = objects w) \/
   (next_fault (faults w) = None /\ op (objects w) = (r, objects w'))).
Proof.
  destruct (next_fault (faults w)) as [e|] eqn:Hn.
  - rewrite (remote_fault _ _ _ e Hn). intros [= <- <-]. simpl. eauto 10.
  - rewrite (remote_through _ _ _ Hn). intros [= <- <-]. simpl.
    repeat split; auto. right. split; [reflexivity|]. destruct (op (objects w)); reflexivity.
Qed.

Lemma uploads_snoc (cs : list call) (c : call) :
  uploads (cs ++ [c]) = (uploads cs + (if is_upload c then 1 else 0))%nat.
Proof.
  unfold uploads. rewrite List.filter_app, length_app. simpl.
  destruct (is_upload c); reflexivity.
Qed.

(** A fetch changes no object and uploads nothing; the handle it returns
    is the one of the object the container holds. *)
Lemma fetch_loop_keeps (self : CloudFilesStorage.t) (name : string) (tries : Z) (w : world) :
  let r := CloudFilesStorage._get_cloud_obj_loop self name tries w in
  (objects (snd r) = objects w /\ uploads (calls (snd r)) = uploads (calls w)) /\
  (forall obj, fst r = Ok obj ->
     exists x, objects w !! name = Some x /\ obj = handle name x).
Proof.
  unfold CloudFilesStorage._get_cloud_obj_loop.
  set (I := fun w' : world =>
              objects w' = objects w /\ uploads (calls w') = uploads (calls w)).
  apply (retry_loop_post _ _ _ _ _ I I
           (fun r w' => I w' /\
              forall obj, r = Ok obj ->
                exists x, objects w !! name = Some x /\ obj = handle name x)).
  - intros s r s1 [Ho Hu] Hatt. unfold get_object in Hatt.
    apply remote_cases in Hatt as (Hc & _ & _ & Hcase).
    assert (HI : I s1).
    { split.
      - destruct Hcase as [(e & _ & _ & ->) | [_ Hop]]; [assumption|].
        destruct (objects s !! name); injection Hop as _ <-; assumption.
      - rewrite Hc, uploads_snoc. simpl. lia. }
    split; [exact HI|].
    destruct Hcase as [(e & _ & -> & _) | [_ Hop]].
    + unfold CloudFilesStorage.fetch_handler.
      destruct (catches _ e); (split; [exact HI | discriminate]).
    + rewrite Ho in Hop. destruct (objects w !! name) as [x|] eqn:Hx.
      * injection Hop as <- _. split; [exact HI|].
        intros obj [= <-]. eauto.
      * injection Hop as <- _. simpl. split; [exact HI | discriminate].
  - intros e n s [Ho Hu]. split; assumption.
  - split; reflexivity.
Qed.

Lemma fetch_keeps (self : CloudFilesStorage.t) (name : string) (w w1 : world)
    (r : result cloud_obj) :
  CloudFilesStorage._get_cloud_obj self name w = (r, w1) ->
  objects w1 = objects w /\ uploads (calls w1) = uploads (calls w) /\
  (forall obj, r = Ok obj -> exists x, objects w !! name = Some x /\ obj = handle name x).
Proof.
  intros H. pose proof (fetch_loop_keeps self name 0 w) as K.
  unfold CloudFilesStorage._get_cloud_obj in H. simpl in K. rewrite H in K. simpl in K.
  tauto.
Qed.

(** ** C2, C10, C3: [_save] *)

Lemma truthy_hexdigest (d : md5_hexdigest) : truthy (Some (hexdigest d)) = true.
Proof. destruct d as [[|a s] Hs]; [discriminate Hs | reflexivity]. Qed.

Lemma py_eq_true (a : option string) (b : string) : py_eq a b = true <-> a = Some b.
Proof.
  destruct a as [s|]; simpl; [|split; discriminate].
  rewrite String.eqb_eq. split; congruence.
Qed.

Section save.
Context `{Imports}.
Variable self : CloudFilesStorage.t.
Variable name : string.

Local Abbreviation local_etag c := (hexdigest (get_checksum (c_bytes c))).

(** [_save] when the fetch finds an object with the checksum of the content. *)
Lemma save_dedup (w w1 : world) (c : content) (obj : cloud_obj) :
  CloudFilesStorage._get_cloud_obj self name w = (Ok obj, w1) ->
  etag obj = Some (local_etag c) ->
  CloudFilesStorage._save self name (w, c) = (Ok name, (w1, c)).
Proof.
  intros Hfetch Hetag.
  unfold CloudFilesStorage._save, bind, gets, try_except, on_fst, ret. simpl.
  rewrite Hfetch. simpl. rewrite Hetag, truthy_hexdigest.
  simpl. rewrite String.eqb_refl. reflexivity.
Qed.

(** [_save] when the fetch raises something else than not-found. *)
Lemma save_fetch_raises (w w1 : world) (c : content) (e : exn) :
  CloudFilesStorage._get_cloud_obj self name w = (Raise e, w1) ->
  e <> NoSuchObject ->
  CloudFilesStorage._save self name (w, c) = (Raise e, (w1, c)).
Proof.
  intros Hfetch He.
  unfold CloudFilesStorage._save, bind, gets, try_except, on_fst, ret. simpl.
  rewrite Hfetch. simpl.
  destruct e; try reflexivity. congruence.
Qed.

(** C2.  When the fetch of [name] returns an object whose reported checksum
    equals the checksum computed from the content, [_save] makes no upload
    call, returns [name], and leaves the content untouched; and whenever a
    [_save] makes an upload call, the fetch raised not-found or returned an
    object whose checksum differs from the one of the content. *)
Theorem save_uploads_only_on_checksum_change (w : world) (c : content) :
  (forall obj w1,
     CloudFilesStorage._get_cloud_obj self name w = (Ok obj, w1) ->
     etag obj = Some (local_etag c) ->
     CloudFilesStorage._save self name (w, c) = (Ok name, (w1, c)) /\
     uploads (calls w1) = uploads (calls w)) /\
  (uploads (calls (fst (snd (CloudFilesStorage._save self name (w, c))))) <>
     uploads (calls w) ->
   fst (CloudFilesStorage._get_cloud_obj self name w) = Raise NoSuchObject \/
   exists obj,
     fst (CloudFilesStorage._get_cloud_obj self name w) = Ok obj /\
     etag obj <> Some (local_etag c)).
Proof.
  split.
  - intros obj w1 Hfetch Hetag. split.
    + apply save_dedup with obj; assumption.
    + apply fetch_keeps in Hfetch. tauto.
  - intros Hup.
    destruct (CloudFilesStorage._get_cloud_obj self name w) as [[obj|e] w1] eqn:Hfetch.
    + right. exists obj. split; [reflexivity|]. intros Hetag.
      rewrite (save_dedup w w1 c obj Hfetch Hetag) in Hup. simpl in Hup.
      apply fetch_keeps in Hfetch. tauto.
    + destruct (decide (e = NoSuchObject)) as [->|Hne]; [left; reflexivity|].
      rewrite (save_fetch_raises w w1 c e Hfetch Hne) in Hup. simpl in Hup.
      apply fetch_keeps in Hfetch. tauto.
Qed.

Lemma content_open_keeps (c c1 : content) :
  content_open c = (Ok tt, c1) ->
  c_bytes c1 = c_bytes c /\ c_pos c1 = 0%nat /\ c_seekable c1 = true /\
  c_closed c1 = false.
Proof.
  unfold content_open. destruct (c_closed c) eqn:Hc; simpl.
  - destruct (c_on_disk c); intros [= <-]; simpl; auto.
  - destruct (c_seekable c) eqn:Hs; intros [= <-]; simpl; auto.
Qed.

(** [_save] when the fetch finds an object and the checksums do not let
    the upload be skipped. *)
Lemma save_uploads_found (w w1 : world) (c c1 : content) (obj : cloud_obj) :
  CloudFilesStorage._get_cloud_obj self name w = (Ok obj, w1) ->
  truthy (etag obj) && py_eq (etag obj) (local_etag c) = false ->
  content_open c = (Ok tt, c1) ->
  CloudFilesStorage._save self name (w, c) = save_upload_step self name (w1, c1).
Proof.
  intros Hfetch Hskip Hopen.
  destruct (content_open_keeps c c1 Hopen) as (Hb & _).
  unfold CloudFilesStorage._save, save_upload_step, bind, gets, try_except, on_fst,
    on_snd, ret, content_type_of. simpl.
  rewrite Hfetch. simpl. rewrite Hskip. simpl. rewrite Hopen. simpl. rewrite Hb.
  destruct (CloudFilesStorage._save_upload_loop _ _ _ _ _ _ _) as [[h|e] st']; reflexivity.
Qed.

(** [_save] when the fetch raises not-found. *)
Lemma save_uploads_missing (w w1 : world) (c c1 : content) :
  CloudFilesStorage._get_cloud_obj self name w = (Raise NoSuchObject, w1) ->
  content_open c = (Ok tt, c1) ->
  CloudFilesStorage._save self name (w, c) = save_upload_step self name (w1, c1).
Proof.
  intros Hfetch Hopen.
  destruct (content_open_keeps c c1 Hopen) as (Hb & _).
  unfold CloudFilesStorage._save, save_upload_step, bind, gets, try_except, on_fst,
    on_snd, ret, content_type_of. simpl.
  rewrite Hfetch. simpl. rewrite Hopen. simpl. rewrite Hb.
  destruct (CloudFilesStorage._save_upload_loop _ _ _ _ _ _ _) as [[h|e] st']; reflexivity.
Qed.

End save.

Lemma upload_file_effect name ct et hd (st st1 : world * content) (r : result cloud_obj) :
  upload_file name ct et hd st = (r, st1) ->
  calls (fst st1) = calls (fst st) ++ [upload_call name ct et hd (snd st)] /\
  snd st1 = set_pos (String.length (c_bytes (snd st))) (snd st).
Proof.
  unfold upload_file.
  destruct (remote _ _ (fst st)) as [r' w1] eqn:Hr. intros [= <- <-]. simpl.
  apply remote_cases in Hr as (Hc & _). split; [exact Hc | reflexivity].
Qed.

(** The upload loop makes at least one upload call, and never closes the
    content. *)
Lemma upload_loop_effect (self : CloudFilesStorage.t) name ct et hd (tries : Z)
    (st : world * content) :
  let r := CloudFilesStorage._save_upload_loop self name ct et hd tries st in
  (uploads (calls (fst st)) < uploads (calls (fst (snd r))))%nat /\
  c_closed (snd (snd r)) = c_closed (snd st).
Proof.
  unfold CloudFilesStorage._save_upload_loop.
  apply (retry_loop_post _ _ _ _ _
           (fun s => (uploads (calls (fst st)) <= uploads (calls (fst s)))%nat /\
                     c_closed (snd s) = c_closed (snd st))
           (fun s => (uploads (calls (fst st)) < uploads (calls (fst s)))%nat /\
                     c_closed (snd s) = c_closed (snd st))
           (fun _ s => (uploads (calls (fst st)) < uploads (calls (fst s)))%nat /\
                       c_closed (snd s) = c_closed (snd st))).
  - intros s r s1 [Hu Hc] Hatt.
    apply upload_file_effect in Hatt as [Hcalls Hsnd].
    assert (HJ : (uploads (calls (fst st)) < uploads (calls (fst s1)))%nat /\
                 c_closed (snd s1) = c_closed (snd st)).
    { rewrite Hcalls, uploads_snoc, Hsnd. simpl. split; [lia | exact Hc]. }
    split; [exact HJ|].
    destruct r as [a|e]; [exact HJ|].
    unfold CloudFilesStorage.upload_handler. destruct (catches _ e); exact HJ.
  - intros e n s [Hu Hc]. destruct (c_seekable (snd s)); simpl; (split; [lia | exact Hc]).
  - split; [lia | reflexivity].
Qed.

Lemma sent_bytes_app (cs cs' : list call) :
  sent_bytes (cs ++ cs') = sent_bytes cs ++ sent_bytes cs'.
Proof. unfold sent_bytes. apply flat_map_app. Qed.

(** Every attempt of the upload loop sends the whole content: after a
    failed attempt the loop rewinds a content that has [seek]. *)
Lemma upload_loop_sends_whole_content (self : CloudFilesStorage.t) name ct et hd
    (tries : Z) (w : world) (c : content) :
  c_seekable c = true -> c_pos c = 0%nat ->
  let r := CloudFilesStorage._save_upload_loop self name ct et hd tries (w, c) in
  exists k, sent_bytes (calls (fst (snd r))) =
            sent_bytes (calls w) ++ repeat (c_bytes c) (S k).
Proof.
  intros Hseek Hpos. unfold CloudFilesStorage._save_upload_loop.
  apply (retry_loop_post _ _ _ _ _
           (fun s => snd s = c /\
                     exists k, sent_bytes (calls (fst s)) =
                               sent_bytes (calls w) ++ repeat (c_bytes c) k)
           (fun s => snd s = set_pos (String.length (c_bytes c)) c /\
                     exists k, sent_bytes (calls (fst s)) =
                               sent_bytes (calls w) ++ repeat (c_bytes c) (S k))
           (fun _ s => exists k, sent_bytes (calls (fst s)) =
                                 sent_bytes (calls w) ++ repeat (c_bytes c) (S k))).
  - intros s r s1 [Hc [k Hk]] Hatt.
    apply upload_file_effect in Hatt as [Hcalls Hsnd].
    assert (HJ : exists k', sent_bytes (calls (fst s1)) =
                            sent_bytes (calls w) ++ repeat (c_bytes c) (S k')).
    { exists k. rewrite Hcalls, sent_bytes_app, Hk, Hc. unfold upload_call.
      rewrite Hpos. simpl. rewrite <- app_assoc. f_equal. symmetry. apply repeat_cons. }
    split; [split; [rewrite Hsnd, Hc; reflexivity | exact HJ]|].
    destruct r as [a|e]; [exact HJ|].
    unfold CloudFilesStorage.upload_handler. destruct (catches _ e); exact HJ.
  - intros e n s [Hc [k Hk]]. rewrite Hc.
    replace (c_seekable (set_pos (String.length (c_bytes c)) c)) with true
      by (destruct c; simpl in *; congruence).
    simpl. split; [apply rewind_restores; exact Hpos | eauto].
  - split; [reflexivity|]. exists 0%nat. simpl. rewrite app_nil_r. reflexivity.
Qed.

Lemma save_uploads_only_on_checksum_change_witness :
  let w := Scenario.world_with Scenario.container [] in
  (exists w1,
     CloudFilesStorage._save (H := Scenario.imports) Scenario.storage "a.txt"
       (w, Scenario.file_of "hello") =
       (Ok "a.txt", (w1, Scenario.file_of "hello")) /\
     uploads (calls w1) = uploads (calls w)) /\
  (fst (CloudFilesStorage._get_cloud_obj Scenario.storage "new.txt" w) = Raise NoSuchObject \/
   exists obj,
     fst (CloudFilesStorage._get_cloud_obj Scenario.storage "new.txt" w) = Ok obj /\
     etag obj <> Some (hexdigest (Scenario.md5 "hello"))).
Proof.
  intros w. split.
  - exists (snd (CloudFilesStorage._get_cloud_obj Scenario.storage "a.txt" w)).
    apply (proj1 (save_uploads_only_on_checksum_change (H := Scenario.imports)
                    Scenario.storage "a.txt" w (Scenario.file_of "hello"))
             (handle "a.txt" {| s_etag := Some "5d41402abc4b2a76b9719d911017c592";
                                s_total_bytes := 5; s_bytes := "hello" |}));
      vm_compute; reflexivity.
  - apply (proj2 (save_uploads_only_on_checksum_change (H := Scenario.imports)
                    Scenario.storage "new.txt" w (Scenario.file_of "hello"))).
    vm_compute. discriminate.
Defined.

(** C10.  When the fetch of [name] returns an object whose reported
    checksum is empty or absent, and the content can be opened, [_save]
    makes an upload call, whatever the checksum of the content. *)
Theorem save_uploads_when_remote_checksum_is_empty `{Imports}
    (self : CloudFilesStorage.t) (name : string) (w w1 : world) (c c1 : content)
    (obj : cloud_obj) :
  CloudFilesStorage._get_cloud_obj self name w = (Ok obj, w1) ->
  truthy (etag obj) = false ->
  content_open c = (Ok tt, c1) ->
  (uploads (calls w) <
   uploads (calls (fst (snd (CloudFilesStorage._save self name (w, c))))))%nat.
Proof.
  intros Hfetch Hempty Hopen.
  rewrite (save_uploads_found self name w w1 c c1 obj Hfetch) by
    (try assumption; rewrite Hempty; reflexivity).
  unfold save_upload_step. cbn [fst snd].
  pose proof (upload_loop_effect self name (content_type_of name c1)
                (hexdigest (get_checksum (c_bytes c1)))
                (CloudFilesStorage._headers_for name HEADER_PATTERNS) 0 (w1, c1)) as [Hu _].
  apply fetch_keeps in Hfetch as (_ & Hsame & _).
  cbn [fst snd] in Hu. lia.
Qed.

Lemma save_uploads_when_remote_checksum_is_empty_witness :
  let w := Scenario.world_with Scenario.container [] in
  (uploads (calls w) <
   uploads (calls (fst (snd (CloudFilesStorage._save (H := Scenario.imports)
                               Scenario.storage "old.txt"
                               (w, Scenario.file_of "hello"))))))%nat.
Proof.
  intros w.
  apply (save_uploads_when_remote_checksum_is_empty (H := Scenario.imports)
           Scenario.storage "old.txt" w
           (snd (CloudFilesStorage._get_cloud_obj Scenario.storage "old.txt" w))
           (Scenario.file_of "hello") (Scenario.file_of "hello")
           (handle "old.txt"
              {| s_etag := Some EmptyString; s_total_bytes := 5; s_bytes := "hello" |}));
    vm_compute; reflexivity.
Defined.

(** C3 at a failing input: no object [new.txt] in the container, an open
    file holding "hello", no failure.  [_save] uploads once, the upload
    succeeds, and the content is left open: the [else] suite that closes it
    does not run after the [break]. *)
Theorem save_leaves_content_open_after_upload :
  let r := CloudFilesStorage._save (H := Scenario.imports) Scenario.storage "new.txt"
             (Scenario.world_with Scenario.container [], Scenario.file_of "hello") in
  fst r = Ok "new.txt" /\
  uploads (calls (fst (snd r))) = 1%nat /\
  objects (fst (snd r)) !! "new.txt" =
    Some {| s_etag := Some "5d41402abc4b2a76b9719d911017c592";
            s_total_bytes := 5; s_bytes := "hello" |} /\
  c_closed (snd (snd r)) = false.
Proof. vm_compute. repeat split. Qed.

(** No run of [_save] closes the content. *)
Lemma save_never_closes `{Imports} (self : CloudFilesStorage.t) (name : string)
    (w : world) (c : content) :
  c_closed c = false ->
  c_closed (snd (snd (CloudFilesStorage._save self name (w, c)))) = false.
Proof.
  intros Hc.
  destruct (CloudFilesStorage._get_cloud_obj self name w) as [[obj|e] w1] eqn:Hfetch.
  - destruct (truthy (etag obj) && py_eq (etag obj) (hexdigest (get_checksum (c_bytes c))))
      eqn:Hskip.
    + apply andb_prop in Hskip as [_ He]. apply py_eq_true in He.
      rewrite (save_dedup self name w w1 c obj Hfetch He). exact Hc.
    + destruct (content_open c) as [[[]|e] c1] eqn:Hopen.
      * rewrite (save_uploads_found self name w w1 c c1 obj Hfetch Hskip Hopen).
        unfold save_upload_step. cbn [fst snd].
        rewrite (proj2 (upload_loop_effect self name _ _ _ 0 (w1, c1))).
        apply content_open_keeps in Hopen. tauto.
      * unfold CloudFilesStorage._save, bind, gets, try_except, on_fst, on_snd, ret.
        simpl. rewrite Hfetch. simpl. rewrite Hskip. simpl. rewrite Hopen. simpl.
        unfold content_open in Hopen. rewrite Hc in Hopen. simpl in Hopen.
        destruct (c_seekable c); injection Hopen as _ <-; exact Hc.
  - destruct (decide (e = NoSuchObject)) as [->|Hne].
    + destruct (content_open c) as [[[]|e] c1] eqn:Hopen.
      * rewrite (save_uploads_missing self name w w1 c c1 Hfetch Hopen).
        unfold save_upload_step. cbn [fst snd].
        rewrite (proj2 (upload_loop_effect self name _ _ _ 0 (w1, c1))).
        apply content_open_keeps in Hopen. tauto.
      * unfold CloudFilesStorage._save, bind, gets, try_except, on_fst, on_snd, ret.
        simpl. rewrite Hfetch. simpl. rewrite Hopen. simpl.
        unfold content_open in Hopen. rewrite Hc in Hopen. simpl in Hopen.
        destruct (c_seekable c); injection Hopen as _ <-; exact Hc.
    + rewrite (save_fetch_raises self name w w1 c e Hfetch Hne). exact Hc.
Qed.

(** ** C4: which failures are retried *)

(** C4 (amended).  A failure of the remote call of class HTTPException,
    SSLError or ServiceResponseFailure is retried by the metadata fetch and
    by the delete while retries remain: the counter goes to 1, a warning is
    logged, the loop goes on; the upload does the same for these classes and
    for socket.error, and rewinds the content.  A failure outside these four
    classes, not-found included, is not retried and consumes no retry: the
    loop ends after that one call with no warning; the fetch and the upload
    raise it, and the delete raises it unless it is not-found, which ends
    the delete as success. *)
Theorem failure_classification (self : CloudFilesStorage.t) (name : string) (e : exn)
    (w : world) :
  next_fault (faults w) = Some e ->
  let max := CloudFilesStorage.max_retries self in
  (catches [HTTPException; SSLError; ServiceResponseFailure] e = true -> 0 < max ->
     CloudFilesStorage._get_cloud_obj self name w =
       CloudFilesStorage._get_cloud_obj_loop self name 1
         (logger_warning (warning "retrieve" name e max 1)
            (after_call (call_get_object name) w)) /\
     CloudFilesStorage.delete self name w =
       CloudFilesStorage.delete_loop self name 1
         (logger_warning (warning "delete" name e max 1)
            (after_call (call_delete_object name) w))) /\
  (catches [HTTPException; SSLError; ServiceResponseFailure; socket_error] e = true ->
   0 < max ->
   forall (c : content) ct et hd,
     CloudFilesStorage._save_upload_loop self name ct et hd 0 (w, c) =
       CloudFilesStorage._save_upload_loop self name ct et hd 1
         (logger_warning (warning "send" name e max 1)
            (after_call (upload_call name ct et hd c) w),
          if c_seekable c then content_seek0 c
          else set_pos (String.length (c_bytes c)) c)) /\
  (catches [HTTPException; SSLError; ServiceResponseFailure; socket_error] e = false ->
     CloudFilesStorage._get_cloud_obj self name w =
       (Raise e, after_call (call_get_object name) w) /\
     (forall (c : content) ct et hd,
        CloudFilesStorage._save_upload_loop self name ct et hd 0 (w, c) =
          (Raise e, (after_call (upload_call name ct et hd c) w,
                     set_pos (String.length (c_bytes c)) c))) /\
     CloudFilesStorage.delete self name w =
       (if bool_decide (e = NoSuchObject) then Ok tt else Raise e,
        after_call (call_delete_object name) w)).
Proof.
  intros Hf max. split; [|split].
  - intros He Hmax. split.
    + unfold CloudFilesStorage._get_cloud_obj, CloudFilesStorage._get_cloud_obj_loop.
      erewrite retry_loop_retry;
        [reflexivity | apply remote_fault; exact Hf
        | apply fetch_handler_retry; exact He | exact Hmax].
    + unfold CloudFilesStorage.delete, CloudFilesStorage.delete_loop.
      erewrite retry_loop_retry;
        [reflexivity | apply remote_fault; exact Hf
        | apply delete_handler_retry; exact He | exact Hmax].
  - intros He Hmax c ct et hd.
    unfold CloudFilesStorage._save_upload_loop.
    erewrite retry_loop_retry;
      [| apply upload_file_fault; exact Hf
       | unfold CloudFilesStorage.upload_handler; rewrite He; reflexivity
       | exact Hmax].
    cbn [fst snd].
    replace (c_seekable (set_pos (String.length (c_bytes c)) c)) with (c_seekable c)
      by (destruct c; reflexivity).
    destruct (c_seekable c); reflexivity.
  - intros He. split; [|split].
    + unfold CloudFilesStorage._get_cloud_obj, CloudFilesStorage._get_cloud_obj_loop.
      apply retry_loop_propagate; [apply remote_fault; exact Hf|].
      destruct e; try discriminate He; reflexivity.
    + intros c ct et hd. unfold CloudFilesStorage._save_upload_loop.
      apply retry_loop_propagate; [apply upload_file_fault; exact Hf|].
      unfold CloudFilesStorage.upload_handler. rewrite He. reflexivity.
    + unfold CloudFilesStorage.delete, CloudFilesStorage.delete_loop.
      destruct e; try discriminate He;
        first [ apply retry_loop_propagate; [apply remote_fault; exact Hf | reflexivity]
              | eapply retry_loop_swallow; [apply remote_fault; exact Hf | reflexivity] ].
Qed.

Lemma failure_classification_witness :
  let w e := Scenario.world_with Scenario.container [Some e] in
  CloudFilesStorage._get_cloud_obj Scenario.storage "a.txt" (w ServiceResponseFailure) =
    CloudFilesStorage._get_cloud_obj_loop Scenario.storage "a.txt" 1
      (logger_warning (warning "retrieve" "a.txt" ServiceResponseFailure 5 1)
         (after_call (call_get_object "a.txt") (w ServiceResponseFailure))) /\
  CloudFilesStorage._save_upload_loop Scenario.storage "a.txt" None EmptyString ∅ 0
    (w socket_error, Scenario.file_of "hello") =
    CloudFilesStorage._save_upload_loop Scenario.storage "a.txt" None EmptyString ∅ 1
      (logger_warning (warning "send" "a.txt" socket_error 5 1)
         (after_call (upload_call "a.txt" None EmptyString ∅ (Scenario.file_of "hello"))
            (w socket_error)),
       Scenario.file_of "hello") /\
  CloudFilesStorage.delete Scenario.storage "a.txt" (w NoSuchObject) =
    (Ok tt, after_call (call_delete_object "a.txt") (w NoSuchObject)).
Proof.
  intros w. split; [|split].
  - apply (proj1 (failure_classification Scenario.storage "a.txt" ServiceResponseFailure
                    (w ServiceResponseFailure) eq_refl)); reflexivity.
  - apply (proj1 (proj2 (failure_classification Scenario.storage "a.txt" socket_error
                           (w socket_error) eq_refl)) eq_refl eq_refl
             (Scenario.file_of "hello") None EmptyString ∅).
  - apply (proj2 (proj2 (proj2 (failure_classification Scenario.storage "a.txt"
                                  NoSuchObject (w NoSuchObject) eq_refl)) eq_refl)).
Defined.

(** C4, as stated, fails: not-found is not propagated by [delete]. *)
Lemma delete_does_not_propagate_not_found :
  let r := CloudFilesStorage.delete Scenario.storage "missing.txt"
             (Scenario.world_with Scenario.container []) in
  fst r = Ok tt /\ fst r <> Raise NoSuchObject /\
  calls (snd r) = [call_delete_object "missing.txt"] /\ log (snd r) = [].
Proof. vm_compute. repeat split; discriminate. Qed.

(** The fetch does not retry a socket-level failure; the upload does. *)
Lemma fetch_does_not_retry_socket_error :
  let w := Scenario.world_with Scenario.container [Some socket_error] in
  CloudFilesStorage._get_cloud_obj Scenario.storage "a.txt" w =
    (Raise socket_error, after_call (call_get_object "a.txt") w) /\
  CloudFilesStorage.delete Scenario.storage "a.txt" w =
    (Raise socket_error, after_call (call_delete_object "a.txt") w).
Proof. vm_compute. split; reflexivity. Qed.

(** ** C5: deleting what is not there, and what [delete] retries *)

(** Not-found in [delete], the part of the claim that holds.  [delete]
    never raises not-found.  When the object is not in the container, or
    the call reports not-found, that call ends the delete as success: no
    retry is consumed and no warning logged.  (The failures [delete]
    retries, HTTPException, SSLError and ServiceResponseFailure, and their
    bound are in C1.) *)
Lemma delete_is_idempotent (self : CloudFilesStorage.t) (name : string) (w : world) :
  fst (CloudFilesStorage.delete self name w) <> Raise NoSuchObject /\
  (next_fault (faults w) = None -> objects w !! name = None ->
     CloudFilesStorage.delete self name w =
       (Ok tt, after_call (call_delete_object name) w)) /\
  (next_fault (faults w) = Some NoSuchObject ->
     CloudFilesStorage.delete self name w =
       (Ok tt, after_call (call_delete_object name) w)).
Proof.
  split; [|split].
  - unfold CloudFilesStorage.delete, CloudFilesStorage.delete_loop.
    apply (retry_loop_post _ _ _ _ _ (fun _ => True) (fun _ => True)
             (fun r _ => r <> Raise NoSuchObject)); auto.
    intros s r s1 _ _. split; [exact I|].
    destruct r as [[]|e]; [discriminate|].
    destruct e; simpl; discriminate.
  - intros Hn Hx.
    unfold CloudFilesStorage.delete, CloudFilesStorage.delete_loop.
    apply retry_loop_swallow with (e := NoSuchObject); [|reflexivity].
    unfold delete_object. rewrite (remote_through _ _ _ Hn), Hx. reflexivity.
  - intros Hn.
    unfold CloudFilesStorage.delete, CloudFilesStorage.delete_loop.
    eapply retry_loop_swallow; [apply remote_fault; exact Hn | reflexivity].
Qed.

(** A socket-level failure is in the except clause of the upload loop and
    in none of [delete] and of the fetch: there it is raised after that one
    call, whatever the retries left and whatever the calls after it would
    do. *)
Lemma socket_error_is_not_retried (self : CloudFilesStorage.t) (name : string)
    (w : world) :
  next_fault (faults w) = Some socket_error ->
  CloudFilesStorage.delete self name w =
    (Raise socket_error, after_call (call_delete_object name) w) /\
  CloudFilesStorage._get_cloud_obj self name w =
    (Raise socket_error, after_call (call_get_object name) w).
Proof.
  intros Hf. split.
  - unfold CloudFilesStorage.delete, CloudFilesStorage.delete_loop.
    apply retry_loop_propagate; [apply remote_fault; exact Hf | reflexivity].
  - unfold CloudFilesStorage._get_cloud_obj, CloudFilesStorage._get_cloud_obj_loop.
    apply retry_loop_propagate; [apply remote_fault; exact Hf | reflexivity].
Qed.

(** C5.  The code at the failing input: [delete("a.txt")] on a client
    with [max_retries = 5], when the first call meets a socket-level failure
    and the next call would go through.  [delete] raises the failure after
    that one call: no retry, no warning, the object still in the container.
    With an HTTPException in its place the same delete logs it, retries and
    succeeds; and the upload loop of [_save], given the same socket-level
    failure, logs it, retries and succeeds. *)
Theorem delete_raises_socket_error_at_once :
  let w := Scenario.world_with Scenario.container [Some socket_error; None] in
  let w_http := Scenario.world_with Scenario.container [Some HTTPException; None] in
  let r := CloudFilesStorage.delete Scenario.storage "a.txt" w in
  let r_http := CloudFilesStorage.delete Scenario.storage "a.txt" w_http in
  let u := CloudFilesStorage._save_upload_loop Scenario.storage "a.txt" None
             "5d41402abc4b2a76b9719d911017c592" ∅ 0 (w, Scenario.file_of "hello") in
  CloudFilesStorage.max_retries Scenario.storage = 5 /\
  r = (Raise socket_error, after_call (call_delete_object "a.txt") w) /\
  failures_observed w (snd r) = 1%nat /\
  attempts_logged w (snd r) = 0%nat /\
  is_Some (objects (snd r) !! "a.txt") /\
  fst r_http = Ok tt /\
  attempts_logged w_http (snd r_http) = 1%nat /\
  objects (snd r_http) !! "a.txt" = None /\
  (exists obj, fst u = Ok obj) /\
  attempts_logged w (fst (snd u)) = 1%nat.
Proof.
  intros w w_http r r_http u.
  assert (Hr : r = (Raise socket_error, after_call (call_delete_object "a.txt") w))
    by (apply socket_error_is_not_retried; reflexivity).
  split; [reflexivity|]. split; [exact Hr|]. rewrite Hr.
  split; [reflexivity|]. split; [reflexivity|].
  split; [eexists; vm_compute; reflexivity|].
  split; [vm_compute; reflexivity|]. split; [vm_compute; reflexivity|].
  split; [vm_compute; reflexivity|].
  split; [eexists; vm_compute; reflexivity | vm_compute; reflexivity].
Qed.

(** ** C6: construction *)

(** C6 (amended).  Construction validates nothing and has no configuration
    error: when its two pyrax calls go through it returns the client, whose
    username, API key and container name are the parameters given, else
    the configured values, absent or not; and when it raises, it raises
    what [pyrax.set_setting] or [pyrax.set_credentials] raised. *)
Theorem construction_validates_nothing `{Imports}
    (username_ api_key_ container : option string) (timeout_ max_retries_ : option Z)
    (container_uri : option string) (w : world) :
  let r := CloudFilesStorage.__init__ username_ api_key_ container timeout_ max_retries_
             container_uri w in
  (next_fault (faults w) = None -> next_fault (tail (faults w)) = None ->
     exists self,
       fst r = Ok self /\
       CloudFilesStorage.username self =
         match username_ with Some u => Some u | None => USERNAME CUMULUS end /\
       CloudFilesStorage.api_key self =
         match api_key_ with Some k => Some k | None => API_KEY CUMULUS end /\
       CloudFilesStorage.container_name self =
         match container with Some c => Some c | None => CONTAINER CUMULUS end) /\
  (forall e, fst r = Raise e ->
     next_fault (faults w) = Some e \/
     (next_fault (faults w) = None /\ next_fault (tail (faults w)) = Some e)).
Proof.
  unfold CloudFilesStorage.__init__, set_setting, set_credentials, bind, ret.
  cbn zeta. split.
  - intros H1 H2. rewrite (remote_through _ _ _ H1). cbn [fst snd].
    rewrite remote_through by exact H2. cbn [fst snd].
    eexists. split; [reflexivity|]. simpl. auto.
  - intros e. destruct (next_fault (faults w)) as [e1|] eqn:H1.
    + rewrite (remote_fault _ _ _ e1 H1). simpl. intros [= ->]. left. reflexivity.
    + rewrite (remote_through _ _ _ H1). cbn [fst snd].
      destruct (next_fault (tail (faults w))) as [e2|] eqn:H2.
      * rewrite (remote_fault _ _ _ e2) by exact H2. simpl. intros [= ->]. auto.
      * rewrite remote_through by exact H2. simpl. discriminate.
Qed.

Lemma construction_validates_nothing_witness :
  (exists self,
     fst (CloudFilesStorage.__init__ (H := Scenario.imports) None None None None None None
            (Scenario.world_with ∅ [])) = Ok self /\
     CloudFilesStorage.username self = None /\
     CloudFilesStorage.api_key self = None /\
     CloudFilesStorage.container_name self = None) /\
  (next_fault [None; Some AuthenticationFailed] = Some AuthenticationFailed \/
   (next_fault [None; Some AuthenticationFailed] = None /\
    next_fault (tail [None; Some AuthenticationFailed]) = Some AuthenticationFailed)).
Proof.
  split.
  - apply (proj1 (construction_validates_nothing (H := Scenario.imports)
                    None None None None None None (Scenario.world_with ∅ [])));
      reflexivity.
  - apply (proj2 (construction_validates_nothing (H := Scenario.imports)
                    (Some "user") (Some "key") (Some "media") None None None
                    (Scenario.world_with ∅ [None; Some AuthenticationFailed]))
             AuthenticationFailed).
    reflexivity.
Defined.

(** C6, as stated, fails: with a username and a key but no container name,
    neither given nor configured, construction returns a client. *)
Lemma construction_succeeds_without_container :
  let r := CloudFilesStorage.__init__ (H := Scenario.imports)
             (Some "user") (Some "key") None None None None
             (Scenario.world_with ∅ []) in
  exists self, fst r = Ok self /\ CloudFilesStorage.container_name self = None.
Proof. eexists. split; reflexivity. Qed.

(** ** C7: the headers of a name *)

Section headers.
Context `{Imports}.

Lemma headers_for_loop_fold (name : string) (rules : list (pattern * gmap string string))
    (acc : gmap string string) :
  CloudFilesStorage._headers_for_loop name rules acc =
  fold_left merge_overwriting
    (List.map snd (List.filter (fun rule => re_match (fst rule) name) rules)) acc.
Proof.
  revert acc. induction rules as [|[p hs] rest IH]; intros acc; simpl; [reflexivity|].
  rewrite IH. destruct (re_match p name); reflexivity.
Qed.

Lemma headers_for_loop_lookup (name key : string)
    (rules : list (pattern * gmap string string)) (acc : gmap string string) :
  CloudFilesStorage._headers_for_loop name rules acc !! key =
  match last_setting rules name key with
  | Some v => Some v
  | None => acc !! key
  end.
Proof.
  revert acc. induction rules as [|[p hs] rest IH]; intros acc; simpl; [reflexivity|].
  rewrite IH. destruct (last_setting rest name key); [reflexivity|].
  destruct (re_match p name); [|reflexivity].
  rewrite lookup_union. destruct (hs !! key), (acc !! key); reflexivity.
Qed.

(** C7.  [_headers_for name rules] is the map obtained from the empty map
    by merging, in table order, the header-set of every rule whose pattern
    matches at the start of the name, a merged header-set overwriting the
    keys already set; key by key, the value is the one of the last matching
    rule that sets the key, and a key no matching rule sets is absent: the
    result may be empty. *)
Theorem headers_for_is_ordered_merge (name : string)
    (rules : list (pattern * gmap string string)) :
  CloudFilesStorage._headers_for name rules = headersFor rules name /\
  (forall key, CloudFilesStorage._headers_for name rules !! key =
               last_setting rules name key) /\
  CloudFilesStorage._headers_for name [] = ∅.
Proof.
  unfold CloudFilesStorage._headers_for, headersFor. split; [|split].
  - apply headers_for_loop_fold.
  - intros key. rewrite headers_for_loop_lookup, lookup_empty.
    destruct (last_setting rules name key); reflexivity.
  - reflexivity.
Qed.

End headers.

(** The scenario of the specification: rule A on [.css] names gives
    [{X: 1}], rule B, listed after A, on [app/] names gives [{X: 2, Y: 3}]. *)
Example headers_for_app_style_css :
  CloudFilesStorage._headers_for (H := Scenario.imports) "app/style.css"
    [Scenario.rule_A; Scenario.rule_B] = {[ "X" := "2"; "Y" := "3" ]} /\
  CloudFilesStorage._headers_for (H := Scenario.imports) "style.css"
    [Scenario.rule_A; Scenario.rule_B] = {[ "X" := "1" ]} /\
  CloudFilesStorage._headers_for (H := Scenario.imports) "img/logo.png"
    [Scenario.rule_A; Scenario.rule_B] = ∅.
Proof. vm_compute. repeat split. Qed.

(** ** C8: listing *)

Lemma append_nil_l (s : string) : (EmptyString ++ s)%string = s.
Proof. reflexivity. Qed.

Lemma append_cons (a : ascii) (s t : string) :
  (String a s ++ t)%string = String a (s ++ t)%string.
Proof. reflexivity. Qed.

Lemma endswith_spec (s suffix : string) :
  endswith s suffix = true <-> exists pre, s = (pre ++ suffix)%string.
Proof.
  induction s as [|a s IH].
  - change (endswith EmptyString suffix) with (String.eqb EmptyString suffix || false).
    rewrite orb_false_r, String.eqb_eq. split.
    + intros ->. exists EmptyString. reflexivity.
    + intros [pre Hp]. destruct pre; rewrite ?append_nil_l, ?append_cons in Hp; congruence.
  - change (endswith (String a s) suffix)
      with (String.eqb (String a s) suffix || endswith s suffix).
    rewrite orb_true_iff, String.eqb_eq, IH. split.
    + intros [Heq | [pre ->]].
      * exists EmptyString. exact Heq.
      * exists (String a pre). reflexivity.
    + intros [pre Hp]. destruct pre as [|b pre]; rewrite ?append_nil_l, ?append_cons in Hp.
      * left. exact Hp.
      * right. injection Hp as _ ->. eauto.
Qed.

Lemma prefix_spec (p s : string) :
  String.prefix p s = true <-> exists rest, s = (p ++ rest)%string.
Proof.
  revert s. induction p as [|a p IH]; intros s.
  - split; [|destruct s; reflexivity]. intros _. exists s. reflexivity.
  - destruct s as [|b s]; simpl.
    + split; [discriminate | intros [rest Hr]; rewrite append_cons in Hr; discriminate].
    + destruct (Ascii.ascii_dec a b) as [->|Hne].
      * rewrite IH. split; intros [rest Hr]; exists rest;
          rewrite ?append_cons in *; congruence.
      * split; [discriminate | intros [rest Hr]; rewrite append_cons in Hr; congruence].
Qed.

Lemma NoDup_map_filter {X Y} (f : X -> Y) (p : X -> bool) (l : list X) :
  NoDup (List.map f l) -> NoDup (List.map f (List.filter p l)).
Proof.
  induction l as [|x l IH]; simpl; [auto|].
  intros Hnd. apply NoDup_cons in Hnd as [Hx Hl].
  destruct (p x); simpl; [|auto].
  apply NoDup_cons. split; [|auto].
  intros Hin. apply Hx.
  apply list_elem_of_In, in_map_iff in Hin as (y & Hy & Hin).
  apply filter_In in Hin as [Hin _].
  apply list_elem_of_In, in_map_iff. eauto.
Qed.

(** C8.  [listdir] appends "/" to a path that is not empty and does not end
    with it, and leaves the empty path and a path that ends with "/" as
    they are; when the call to the service goes through, it returns the
    empty list and the names of the objects of the container that start
    with that prefix, each once; whenever it returns, its first element is
    the empty list. *)
Theorem listdir_lists_names_under_prefix (self : CloudFilesStorage.t) (path : string)
    (w : world) :
  CloudFilesStorage.listdir_path EmptyString = EmptyString /\
  (path <> EmptyString -> endswith path "/" = false ->
     CloudFilesStorage.listdir_path path = (path ++ "/")%string) /\
  (endswith path "/" = true -> CloudFilesStorage.listdir_path path = path) /\
  (next_fault (faults w) = None ->
     exists files,
       CloudFilesStorage.listdir self path w =
         (Ok ([], files), after_call (call_list_all (CloudFilesStorage.listdir_path path)) w) /\
       NoDup files /\
       forall n, n ∈ files <->
                 is_Some (objects w !! n) /\
                 exists rest, n = (CloudFilesStorage.listdir_path path ++ rest)%string) /\
  (forall dirs files w',
     CloudFilesStorage.listdir self path w = (Ok (dirs, files), w') -> dirs = []).
Proof.
  split; [reflexivity|]. split; [|split; [|split]].
  - intros Hne Hend. unfold CloudFilesStorage.listdir_path.
    rewrite Hend. apply String.eqb_neq in Hne. rewrite Hne. reflexivity.
  - intros Hend. unfold CloudFilesStorage.listdir_path.
    rewrite Hend, andb_false_r. reflexivity.
  - intros Hn. eexists. split; [|split].
    + unfold CloudFilesStorage.listdir, list_all, bind, ret.
      rewrite (remote_through _ _ _ Hn). reflexivity.
    + rewrite List.map_map. simpl. apply NoDup_map_filter.
      apply NoDup_fst_map_to_list.
    + intros n. rewrite List.map_map. simpl.
      rewrite list_elem_of_In, in_map_iff. split.
      * intros ([k x] & <- & Hin). apply filter_In in Hin as [Hin Hp].
        apply list_elem_of_In, elem_of_map_to_list in Hin. simpl in *. split; [eauto|].
        apply prefix_spec. exact Hp.
      * intros [[x Hx] Hp]. exists (n, x). split; [reflexivity|].
        apply filter_In. split.
        -- apply list_elem_of_In, elem_of_map_to_list. exact Hx.
        -- apply prefix_spec. exact Hp.
  - intros dirs files w'. unfold CloudFilesStorage.listdir, bind, ret.
    destruct (list_all _ w) as [[found|e] w1]; [|discriminate].
    intros [= <- _ _]. reflexivity.
Qed.

Lemma listdir_lists_names_under_prefix_witness :
  let w := Scenario.world_with Scenario.container [] in
  CloudFilesStorage.listdir_path "css" = "css/" /\
  CloudFilesStorage.listdir_path "css/" = "css/" /\
  (exists files,
     CloudFilesStorage.listdir Scenario.storage "css" w =
       (Ok ([], files), after_call (call_list_all "css/") w) /\
     NoDup files /\
     forall n, n ∈ files <->
               is_Some (objects w !! n) /\ exists rest, n = ("css/" ++ rest)%string) /\
  match fst (CloudFilesStorage.listdir Scenario.storage "css" w) with
  | Ok (dirs, _) => dirs = []
  | Raise _ => False
  end.
Proof.
  intros w.
  destruct (listdir_lists_names_under_prefix Scenario.storage "css" w)
    as (_ & Happend & _ & Hlist & Hdirs).
  destruct (listdir_lists_names_under_prefix Scenario.storage "css/" w)
    as (_ & _ & Hkeep & _).
  split; [apply Happend; [discriminate | reflexivity]|].
  split; [apply Hkeep; reflexivity|].
  split; [apply Hlist; reflexivity|].
  change (([] : list string) = []).
  apply (Hdirs [] ["css/site.css"] (after_call (call_list_all "css/") w)).
  vm_compute. reflexivity.
Defined.

(** [listdir] of the empty path lists every name; [listdir("css")] only
    those under "css/". *)
Example listdir_scenario :
  let w := Scenario.world_with Scenario.container [] in
  fst (CloudFilesStorage.listdir Scenario.storage EmptyString w) =
    Ok ([], ["old.txt"; "css/site.css"; "a.txt"]) /\
  fst (CloudFilesStorage.listdir Scenario.storage "css" w) = Ok ([], ["css/site.css"]).
Proof. vm_compute. split; reflexivity. Qed.

(** ** C9: the cursor of a stream *)

Section stream.
Import CloudFilesStorageFile.

(** [read] when the cursor stands at the cached size: nothing is fetched. *)
Lemma read_at_end (n p : Z) (w : world) (f : t) :
  _pos f = Some p -> _size f = Some p ->
  read n (w, f) = (Ok EmptyString, (w, f)).
Proof.
  intros Hp Hs. unfold read, get_pos, _get_size, bind, gets, ret. simpl.
  rewrite Hp. simpl. rewrite Hs. simpl. rewrite Z.eqb_refl. reflexivity.
Qed.

(** [read] on a stream whose cursor is not set. *)
Lemma read_without_cursor (n : Z) (w : world) (f : t) :
  _pos f = None -> read n (w, f) = (Raise AttributeError, (w, f)).
Proof.
  intros Hp. unfold read, get_pos, bind. simpl. rewrite Hp. reflexivity.
Qed.

Lemma get_size_cached (z : Z) (w : world) (f : t) :
  _size f = Some z -> _get_size (w, f) = (Ok z, (w, f)).
Proof.
  intros Hs. unfold _get_size, bind, gets, ret. simpl. rewrite Hs. reflexivity.
Qed.

Lemma get_size_fetch (w : world) (f : t) :
  _size f = None ->
  _get_size (w, f) =
  match CloudFilesStorage._get_cloud_obj (_container f) (name f) w with
  | (Ok obj, w1) => (Ok (total_bytes obj), (w1, set_size (total_bytes obj) f))
  | (Raise e, w1) => (Raise e, (w1, f))
  end.
Proof.
  intros Hs.
  unfold _get_size, CloudFilesStorage.size, bind, gets, ret, on_fst, modify. simpl.
  rewrite Hs. simpl.
  destruct (CloudFilesStorage._get_cloud_obj _ _ w) as [[obj|e] w1]; reflexivity.
Qed.

Lemma get_pos_set (p : Z) (w : world) (f : t) :
  _pos f = Some p -> get_pos (w, f) = (Ok p, (w, f)).
Proof. intros Hp. unfold get_pos. simpl. rewrite Hp. reflexivity. Qed.

Lemma get_file_cached (h : cloud_obj) (w : world) (f : t) :
  _file f = Some h -> _get_file (w, f) = (Ok h, (w, f)).
Proof.
  intros Hf. unfold _get_file, bind, gets, ret. simpl. rewrite Hf. reflexivity.
Qed.

Lemma get_file_fetch (w : world) (f : t) :
  _file f = None ->
  _get_file (w, f) =
  match CloudFilesStorage._get_cloud_obj (_container f) (name f) w with
  | (Ok obj, w1) => (Ok obj, (w1, set_pos 0 (set_file (Some obj) f)))
  | (Raise e, w1) => (Raise e, (w1, f))
  end.
Proof.
  intros Hf. unfold _get_file, bind, gets, ret, on_fst, modify. simpl.
  rewrite Hf. simpl.
  destruct (CloudFilesStorage._get_cloud_obj _ _ w) as [[obj|e] w1]; reflexivity.
Qed.

(** [read] after its first test: the handle, the fetch, the cursor. *)
Local Abbreviation read_rest :=
  (bind _get_file
     (fun file =>
        bind (on_fst (get file))
          (fun data =>
             bind get_pos
               (fun pos =>
                  bind (modify (fun st : world * t =>
                                  (fst st, set_pos (pos + Z.of_nat (String.length data))
                                             (snd st))))
                    (fun _ => ret data))))).

Lemma get_size_result (w w1 : world) (f f1 : t) (r : result Z) :
  _get_size (w, f) = (r, (w1, f1)) ->
  _pos f1 = _pos f /\ _file f1 = _file f /\ name f1 = name f /\
  _container f1 = _container f /\
  match r with
  | Ok z => _size f1 = Some z
  | Raise _ => f1 = f
  end.
Proof.
  destruct (_size f) as [z|] eqn:Hs.
  - rewrite (get_size_cached z w f Hs). intros [= <- <- <-]. auto.
  - rewrite (get_size_fetch w f Hs).
    destruct (CloudFilesStorage._get_cloud_obj _ _ w) as [[obj|e] w2];
      intros [= <- <- <-]; simpl; auto.
Qed.

(** The byte limit of [read] is computed and not used. *)
Lemma read_normal (n p : Z) (w : world) (f : t) :
  _pos f = Some p ->
  read n (w, f) =
  match _get_size (w, f) with
  | (Ok z, st1) => if (p =? z)%Z then (Ok EmptyString, st1) else read_rest st1
  | (Raise e, st1) => (Raise e, st1)
  end.
Proof.
  intros Hp. unfold read. unfold bind at 1. rewrite (get_pos_set p w f Hp).
  unfold bind at 1.
  destruct (_get_size (w, f)) as [[z|e] [w1 f1]] eqn:Hg; [|reflexivity].
  destruct (p =? z)%Z; [reflexivity|].
  apply get_size_result in Hg as (Hp1 & _ & _ & _ & Hz). rewrite Hp in Hp1.
  unfold bind at 1.
  destruct (negb (n =? 0)%Z); [|reflexivity].
  unfold bind at 1. rewrite (get_pos_set p w1 f1 Hp1).
  unfold bind at 1. rewrite (get_size_cached z w1 f1 Hz).
  destruct (p + n >? z)%Z; [|reflexivity].
  unfold bind at 1. rewrite (get_size_cached z w1 f1 Hz).
  unfold bind at 1. rewrite (get_pos_set p w1 f1 Hp1). reflexivity.
Qed.

(** One [read] keeps the objects of the container and the shape of the
    stream, and moves the cursor forward. *)
Ltac split_all := repeat match goal with |- _ /\ _ => split end.

Lemma read_step (n : Z) (w : world) (f : t) :
  stream_ok (objects w) f ->
  (forall x, objects w !! name f = Some x -> reports_true_size x) ->
  let st' := snd (read n (w, f)) in
  objects (fst st') = objects w /\
  name (snd st') = name f /\
  stream_ok (objects w) (snd st') /\
  cursor_le (_pos f) (_pos (snd st')).
Proof.
  intros Hok Htrue st'. subst st'.
  remember (read n (w, f)) as res eqn:Hres. symmetry in Hres.
  assert (Hrefl : forall q, cursor_le q q) by (intros [q|]; simpl; [lia | exact I]).
  destruct (_pos f) as [p|] eqn:Hp;
    [|rewrite (read_without_cursor n w f Hp) in Hres; subst res; simpl; auto].
  (* the size: cached, or fetched now *)
  assert (Hsize : exists r w1 f1,
             _get_size (w, f) = (r, (w1, f1)) /\ objects w1 = objects w /\
             name f1 = name f /\ _pos f1 = Some p /\
             stream_ok (objects w) f1 /\
             (forall z, r = Ok z -> _size f1 = Some z)).
  { destruct (_size f) as [z|] eqn:Hs.
    - exists (Ok z), w, f. rewrite (get_size_cached z w f Hs).
      split_all; auto. congruence.
    - pose proof (get_size_fetch w f Hs) as Hg.
      destruct (CloudFilesStorage._get_cloud_obj _ _ w) as [[obj|e] w1] eqn:Hfetch;
        apply fetch_keeps in Hfetch as (Ho & _ & Hobj).
      + destruct (Hobj obj eq_refl) as (x & Hx & ->).
        exists (Ok (total_bytes (handle (name f) x))), w1,
          (set_size (total_bytes (handle (name f) x)) f).
        rewrite Hg. split_all; auto.
        * destruct Hok as (Hsz & Hps & Hfl). split; [|split]; auto.
          intros z [= <-]. simpl. eauto.
        * intros z [= <-]. reflexivity.
      + exists (Raise e), w1, f. rewrite Hg. split_all; auto. discriminate. }
  destruct Hsize as (r & w1 & f1 & Hg & Ho1 & Hn1 & Hp1 & Hok1 & Hz).
  unfold read in Hres. unfold bind at 1 in Hres.
  rewrite (get_pos_set p w f Hp) in Hres. unfold bind at 1 in Hres. rewrite Hg in Hres.
  destruct r as [z|e];
    [|subst res; simpl; rewrite Hp1; simpl; split_all; auto; lia].
  specialize (Hz z eq_refl).
  destruct (Z.eqb_spec p z) as [->|Hne];
    [subst res; simpl; rewrite Hp1; simpl; split_all; auto; lia|].
  (* the byte limit *)
  assert (Hlimit : forall k : Z -> M (world * t) string,
             bind (if negb (n =? 0)%Z
                   then bind get_pos (fun pos =>
                          bind _get_size (fun size =>
                            if (pos + n >? size)%Z
                            then bind _get_size (fun size =>
                                   bind get_pos (fun pos => ret (size - pos)))
                            else ret n))
                   else ret n) k (w1, f1) =
             k (if negb (n =? 0)%Z then if (p + n >? z)%Z then z - p else n else n)
               (w1, f1)).
  { intros k. destruct (negb (n =? 0)%Z); [|reflexivity].
    unfold bind at 1. unfold bind at 1. rewrite (get_pos_set p w1 f1 Hp1).
    unfold bind at 1. rewrite (get_size_cached z w1 f1 Hz).
    destruct (p + n >? z)%Z; [|reflexivity].
    unfold bind at 1. rewrite (get_size_cached z w1 f1 Hz).
    unfold bind at 1. rewrite (get_pos_set p w1 f1 Hp1). reflexivity. }
  rewrite Hlimit in Hres. clear Hlimit.
  (* the cursor is not at the size: it is at the start *)
  destruct Hok1 as (Hsz & Hps & Hfl).
  destruct (Hsz z Hz) as (x & Hx & ->).
  destruct (Hps p Hp1) as (x' & Hx' & Hcase).
  rewrite Hn1 in Hx, Hx'. rewrite Hx in Hx'. injection Hx' as <-.
  pose proof (Htrue x Hx) as Hts. unfold reports_true_size in Hts.
  assert (p = 0) as -> by (destruct Hcase; congruence).
  (* the handle: cached, or fetched now, which sets the cursor to 0 *)
  assert (Hfile : exists r w2 f2,
             _get_file (w1, f1) = (r, (w2, f2)) /\ objects w2 = objects w /\
             name f2 = name f /\ _pos f2 = Some 0 /\
             _size f2 = Some (s_total_bytes x) /\
             (forall h', _file f2 = Some h' -> obj_name h' = name f2) /\
             (forall h', r = Ok h' -> obj_name h' = name f)).
  { destruct (_file f1) as [h|] eqn:Hfile.
    - exists (Ok h), w1, f1. rewrite (get_file_cached h w1 f1 Hfile).
      split_all; auto.
      + intros h' Hh'. rewrite Hfile in Hh'. exact (Hfl h' Hh').
      + intros h' [= <-]. rewrite <- Hn1. apply Hfl. reflexivity.
    - pose proof (get_file_fetch w1 f1 Hfile) as Hg'.
      destruct (CloudFilesStorage._get_cloud_obj _ _ w1) as [[obj|e] w2] eqn:Hfetch;
        apply fetch_keeps in Hfetch as (Ho2 & _ & Hobj).
      + destruct (Hobj obj eq_refl) as (y & Hy & ->).
        exists (Ok (handle (name f1) y)), w2,
          (set_pos 0 (set_file (Some (handle (name f1) y)) f1)).
        rewrite Hg'. split_all; auto; try congruence.
        * intros h' [= <-]. reflexivity.
        * intros h' [= <-]. simpl. exact Hn1.
      + exists (Raise e), w2, f1. rewrite Hg'.
        split_all; auto; congruence. }
  destruct Hfile as (r & w2 & f2 & Hg2 & Ho2 & Hn2 & Hp2 & Hs2 & Hfl2 & Hh).
  assert (Hok2 : stream_ok (objects w) f2).
  { split; [|split].
    - intros z' Hz'. rewrite Hs2 in Hz'. injection Hz' as <-. rewrite Hn2. eauto.
    - intros q Hq. rewrite Hp2 in Hq. injection Hq as <-. rewrite Hn2. eauto.
    - exact Hfl2. }
  unfold bind at 1 in Hres. rewrite Hg2 in Hres.
  destruct r as [h|e];
    [|subst res; simpl; rewrite Hp2; simpl; split_all; auto; lia].
  specialize (Hh h eq_refl).
  unfold bind at 1 in Hres. unfold on_fst at 1 in Hres. cbn [fst snd] in Hres.
  destruct (get h w2) as [rd w3] eqn:Hget.
  unfold get in Hget. apply remote_cases in Hget as (_ & _ & _ & Hcase').
  assert (Ho3 : objects w3 = objects w).
  { destruct Hcase' as [(e & _ & _ & ->) | [_ Hop]]; [exact Ho2|].
    destruct (objects w2 !! obj_name h); injection Hop as _ <-; exact Ho2. }
  destruct rd as [data|e];
    [|subst res; simpl; rewrite Hp2; simpl; split_all; auto; lia].
  assert (Hdata : data = s_bytes x).
  { destruct Hcase' as [(e & _ & Hr & _) | [_ Hop]]; [discriminate|].
    rewrite Ho2, Hh, Hx in Hop. injection Hop as <- _. reflexivity. }
  unfold bind at 1 in Hres. rewrite (get_pos_set 0 w3 f2 Hp2) in Hres.
  unfold bind, modify, ret in Hres. subst res. simpl. rewrite Hdata.
  split_all; auto.
  - split; [|split].
    + intros z' Hz'. simpl in Hz'. rewrite Hs2 in Hz'. injection Hz' as <-.
      simpl. rewrite Hn2. eauto.
    + intros q [= <-]. simpl. rewrite Hn2. eauto.
    + exact Hfl2.
  - lia.
Qed.

Lemma cursor_le_trans (a b c : option Z) : cursor_le a b -> cursor_le b c -> cursor_le a c.
Proof. destruct a, b, c; simpl; try tauto; lia. Qed.

(** A stream of the right shape over objects of true sizes has its cursor
    within its size. *)
Lemma stream_ok_within_size (o : gmap string stored) (f : t) :
  stream_ok o f ->
  (forall x, o !! name f = Some x -> reports_true_size x) ->
  within_size f.
Proof.
  intros (Hsz & Hps & _) Htrue. unfold within_size.
  destruct (_pos f) as [p|]; [|exact I]. destruct (_size f) as [z|]; [|exact I].
  destruct (Hsz z eq_refl) as (x & Hx & ->).
  destruct (Hps p eq_refl) as (x' & Hx' & Hcase).
  rewrite Hx in Hx'. injection Hx' as <-.
  rewrite (Htrue x Hx). destruct Hcase as [-> | ->]; lia.
Qed.

Lemma after_reads_keeps (args : list Z) (w : world) (f : t) :
  stream_ok (objects w) f ->
  (forall x, objects w !! name f = Some x -> reports_true_size x) ->
  let st' := after_reads args (w, f) in
  objects (fst st') = objects w /\
  name (snd st') = name f /\
  stream_ok (objects w) (snd st') /\
  cursor_le (_pos f) (_pos (snd st')).
Proof.
  revert w f. induction args as [|n args IH]; intros w f Hok Htrue; simpl.
  - split_all; auto. destruct (_pos f); simpl; [lia | exact I].
  - destruct (read_step n w f Hok Htrue) as (Ho & Hn & Hok' & Hle).
    destruct (read n (w, f)) as [r [w1 f1]]. simpl in *.
    destruct (IH w1 f1) as (Ho2 & Hn2 & Hok2 & Hle2).
    + rewrite Ho. exact Hok'.
    + rewrite Ho, Hn. exact Htrue.
    + unfold after_reads in *. split_all.
      * congruence.
      * congruence.
      * rewrite <- Ho. exact Hok2.
      * eapply cursor_le_trans; eassumption.
Qed.

(** One read, on any stream and in any world.  A stream that has its
    handle keeps it, and its cursor does not go back.  A stream without
    handle is left without handle and with its cursor as it was, or has its
    handle resolved and its cursor counted from 0 again. *)
Lemma read_cursor (n : Z) (w : world) (f : t) :
  let f' := snd (snd (read n (w, f))) in
  (is_Some (_file f) -> _file f' = _file f /\ cursor_le (_pos f) (_pos f')) /\
  (_file f = None ->
     (_file f' = None /\ _pos f' = _pos f) \/
     (is_Some (_file f') /\ exists q, _pos f' = Some q /\ 0 <= q)).
Proof.
  cbn zeta.
  assert (Hrefl : forall q, cursor_le q q) by (intros [q|]; simpl; [lia | exact I]).
  assert (Hsame : forall f1 : t,
            _pos f1 = _pos f -> _file f1 = _file f ->
            (is_Some (_file f) -> _file f1 = _file f /\ cursor_le (_pos f) (_pos f1)) /\
            (_file f = None ->
               (_file f1 = None /\ _pos f1 = _pos f) \/
               (is_Some (_file f1) /\ exists q, _pos f1 = Some q /\ 0 <= q))).
  { intros f1 Hp1 Hf1. rewrite Hp1, Hf1. split; [auto|]. intros ->. left. auto. }
  destruct (_pos f) as [p|] eqn:Hp;
    [|rewrite (read_without_cursor n w f Hp); apply Hsame; [exact Hp | reflexivity]].
  rewrite (read_normal n p w f Hp).
  destruct (_get_size (w, f)) as [[z|e] [w1 f1]] eqn:Hg;
    apply get_size_result in Hg as (Hp1 & Hf1 & _); rewrite Hp in Hp1;
    [|apply Hsame; [exact Hp1 | exact Hf1]].
  destruct (p =? z)%Z; [apply Hsame; [exact Hp1 | exact Hf1]|].
  remember (read_rest (w1, f1)) as res eqn:Hres. symmetry in Hres.
  destruct (_file f1) as [h|] eqn:Hfile1.
  - (* the handle is there *)
    unfold bind at 1 in Hres. rewrite (get_file_cached h w1 f1 Hfile1) in Hres.
    unfold bind at 1 in Hres. unfold on_fst at 1 in Hres. cbn [fst snd] in Hres.
    rewrite <- Hf1. split; [intros _ | discriminate].
    destruct (get h w1) as [[data|e] w2].
    + unfold bind at 1 in Hres. unfold get_pos at 1 in Hres. cbn [fst snd] in Hres.
      rewrite Hp1 in Hres. unfold bind, modify, ret in Hres. cbn [fst snd] in Hres.
      subst res. cbn [fst snd _file _pos set_pos].
      split; [exact Hfile1|]. simpl. lia.
    + subst res. cbn [fst snd]. rewrite Hp1.
      split; [exact Hfile1|]. simpl. lia.
  - (* the handle is fetched now *)
    rewrite <- Hf1. split; [intros [? [=]]|]. intros _.
    unfold bind at 1 in Hres. rewrite (get_file_fetch w1 f1 Hfile1) in Hres.
    destruct (CloudFilesStorage._get_cloud_obj _ _ w1) as [[obj|e] w2].
    + right. unfold bind at 1 in Hres. unfold on_fst at 1 in Hres. cbn [fst snd] in Hres.
      destruct (get obj w2) as [[data|e] w3].
      * unfold bind at 1 in Hres. unfold get_pos at 1 in Hres.
        cbn [fst snd set_pos _pos] in Hres.
        unfold bind, modify, ret in Hres. cbn [fst snd] in Hres.
        subst res. cbn [fst snd _file _pos set_pos set_file].
        split; [eauto|]. eexists. split; [reflexivity|]. lia.
      * subst res. cbn [fst snd _file _pos set_pos set_file].
        split; [eauto|]. eexists. split; [reflexivity|]. lia.
    + left. subst res. cbn [fst snd]. auto.
Qed.

(** A run of reads on a stream that has its handle. *)
Lemma after_reads_forward (args : list Z) (w : world) (f : t) :
  is_Some (_file f) ->
  let st' := after_reads args (w, f) in
  _file (snd st') = _file f /\ cursor_le (_pos f) (_pos (snd st')).
Proof.
  revert w f. induction args as [|n args IH]; intros w f Hfile; simpl.
  - split; [reflexivity|]. destruct (_pos f); simpl; [lia | exact I].
  - destruct (read_cursor n w f) as [Hheld _].
    destruct (Hheld Hfile) as [Hf1 Hle].
    destruct (read n (w, f)) as [r [w1 f1]]. simpl in *.
    destruct (IH w1 f1) as [Hf2 Hle2]; [rewrite Hf1; exact Hfile|].
    unfold after_reads in *. split; [congruence|].
    eapply cursor_le_trans; eassumption.
Qed.

(** C9 (amended).  For every stream, in every world and after any sequence
    of reads: a read does not move the cursor back, except that a read
    which resolves the handle counts the cursor from 0 again; so on a
    stream that has its handle the cursor after any part of a sequence of
    reads is no less than before it, and no less again after the rest; and
    a read when the cursor equals the size returns the empty string and
    touches nothing.  The cursor lies between 0 and the resolved size when
    the stream is in step with the object it reads, as the lookups and the
    reads of the class leave it over a container that reports true sizes
    and that nobody else changes: its size, if it has one, is the one the
    container reports, and its cursor, if it has one, is at the start or at
    the end of the bytes of the object. *)
Theorem cursor_moves_forward_within_size (w : world) (f : t) (args more : list Z) :
  let st1 := after_reads args (w, f) in
  let st2 := after_reads (args ++ more) (w, f) in
  (forall n,
     let f1 := snd st1 in
     let f1' := snd (snd (read n st1)) in
     cursor_le (_pos f1) (_pos f1') \/
     (_file f1 = None /\ is_Some (_file f1') /\ exists q, _pos f1' = Some q /\ 0 <= q)) /\
  (is_Some (_file f) ->
     cursor_le (_pos f) (_pos (snd st1)) /\
     cursor_le (_pos (snd st1)) (_pos (snd st2))) /\
  (forall n p, _pos (snd st1) = Some p -> _size (snd st1) = Some p ->
     read n st1 = (Ok EmptyString, st1)) /\
  (stream_ok (objects w) f ->
   (forall x, objects w !! name f = Some x -> reports_true_size x) ->
     cursor_le (_pos f) (_pos (snd st1)) /\
     cursor_le (_pos (snd st1)) (_pos (snd st2)) /\
     within_size (snd st1)).
Proof.
  intros st1 st2.
  assert (Hst2 : st2 = after_reads more st1)
    by (unfold st2, st1, after_reads; apply fold_left_app).
  split_all.
  - intros n. cbn zeta. destruct st1 as [w1 f1]. cbn [snd].
    destruct (read_cursor n w1 f1) as [Hheld Hnone].
    destruct (_file f1) as [h|] eqn:Hfile.
    + left. apply Hheld. eauto.
    + destruct (Hnone eq_refl) as [[_ Hp] | Hres].
      * left. rewrite Hp. destruct (_pos f1); simpl; [lia | exact I].
      * right. split; [reflexivity | exact Hres].
  - intros Hfile.
    destruct (after_reads_forward args w f Hfile) as [Hf1 Hle]. fold st1 in Hf1, Hle.
    split; [exact Hle|]. rewrite Hst2. destruct st1 as [w1 f1]. simpl in *.
    apply (after_reads_forward more w1 f1). rewrite Hf1. exact Hfile.
  - intros n p Hp Hs. destruct st1 as [w1 f1]. apply (read_at_end n p); assumption.
  - intros Hok Htrue.
    destruct (after_reads_keeps args w f Hok Htrue) as (Ho & Hn & Hok1 & Hle).
    fold st1 in Ho, Hn, Hok1, Hle.
    destruct st1 as [w1 f1] eqn:Hst1. simpl in *.
    split_all.
    + exact Hle.
    + rewrite Hst2.
      apply (after_reads_keeps more w1 f1).
      * rewrite Ho. exact Hok1.
      * rewrite Ho, Hn. exact Htrue.
    + apply (stream_ok_within_size (objects w)); [exact Hok1|].
      rewrite Hn. exact Htrue.
Qed.

Lemma cursor_moves_forward_within_size_witness :
  let st0 := (Scenario.world_with Scenario.container [Some HTTPException],
              Scenario.opened_stream) in
  let st1 := after_reads [2] st0 in
  let st2 := after_reads ([2] ++ [0; 7]) st0 in
  cursor_le (Some 0) (_pos (snd st1)) /\
  cursor_le (_pos (snd st1)) (_pos (snd st2)) /\
  within_size (snd st1) /\
  (forall n p, _pos (snd st1) = Some p -> _size (snd st1) = Some p ->
     read n st1 = (Ok EmptyString, st1)).
Proof.
  intros st0 st1 st2.
  destruct (cursor_moves_forward_within_size
              (Scenario.world_with Scenario.container [Some HTTPException])
              Scenario.opened_stream [2] [0; 7]) as (_ & Hheld & Hend & Hok).
  destruct (Hheld ltac:(eexists; reflexivity)) as [Hle1 Hle2].
  destruct Hok as (_ & _ & Hwithin).
  - split; [|split].
    + intros z Hz. discriminate Hz.
    + intros p Hp. injection Hp as <-. eexists. split; [reflexivity | left; reflexivity].
    + intros h Hh. injection Hh as <-. reflexivity.
  - intros x Hx. vm_compute in Hx. injection Hx as <-. reflexivity.
  - split; [exact Hle1|]. split; [exact Hle2|]. split; [exact Hwithin | exact Hend].
Defined.

(** C9, as stated, fails: the size of a stream can be assigned, and [read]
    fetches the whole object whatever the size says.  On a stream of
    [a.txt], 5 bytes, whose size was set to 3, the first read leaves the
    cursor at 5, past the size, and the next one at 10. *)
Lemma cursor_exceeds_assigned_size :
  let w := Scenario.world_with Scenario.container [] in
  let f := __init__ Scenario.storage "a.txt" in
  let st0 := snd (_get_file (snd (_set_size 3 (w, f)))) in
  let st1 := after_reads [0] st0 in
  let st2 := after_reads [0; 0] st0 in
  _size (snd st0) = Some 3 /\ _pos (snd st0) = Some 0 /\
  _size (snd st1) = Some 3 /\ _pos (snd st1) = Some 5 /\
  ~ within_size (snd st1) /\
  _size (snd st2) = Some 3 /\ _pos (snd st2) = Some 10.
Proof.
  vm_compute. repeat split; try reflexivity. intros [_ H]. apply H. reflexivity.
Qed.

(** The same without the setter: the size is resolved, 5; the client then
    saves 11 bytes under the name; the handle is fetched and a read leaves
    the cursor at 11, past the size the stream holds. *)
Lemma cursor_exceeds_size_after_save :
  let w := Scenario.world_with Scenario.container [] in
  let f := __init__ Scenario.storage "a.txt" in
  let st_sized := snd (_get_size (w, f)) in
  let w_saved :=
    fst (snd (CloudFilesStorage._save (H := Scenario.imports) Scenario.storage "a.txt"
                (fst st_sized, Scenario.file_of "hello world"))) in
  let st0 := snd (_get_file (w_saved, snd st_sized)) in
  let st1 := after_reads [0] st0 in
  _size (snd st1) = Some 5 /\ _pos (snd st1) = Some 11 /\ ~ within_size (snd st1).
Proof.
  vm_compute. repeat split; try reflexivity. intros [_ H]. apply H. reflexivity.
Qed.

(** The scenario of the specification: the object has 5 bytes; a first read
    returns them, whatever the byte limit, and moves the cursor to 5; a read
    with the cursor at 5 returns the empty string and calls nothing. *)
Example read_scenario :
  let st0 := (Scenario.world_with Scenario.container [], Scenario.opened_stream) in
  let r1 := read 2 st0 in
  let r2 := read 0 (snd r1) in
  fst r1 = Ok "hello" /\ _pos (snd (snd r1)) = Some 5 /\
  _size (snd (snd r1)) = Some 5 /\
  fst r2 = Ok EmptyString /\ snd r2 = snd r1.
Proof. vm_compute. repeat split. Qed.

(** The streams the class builds have the shape [stream_ok]: a new stream,
    and a stream after its size or its handle has been resolved. *)
Lemma new_stream_ok (o : gmap string stored) (container : CloudFilesStorage.t)
    (name : string) :
  stream_ok o (__init__ container name).
Proof. split; [|split]; intros ? H; discriminate H. Qed.

Lemma get_file_keeps_ok (w : world) (f : t) :
  stream_ok (objects w) f ->
  let st' := snd (_get_file (w, f)) in
  objects (fst st') = objects w /\ stream_ok (objects w) (snd st').
Proof.
  intros Hok. destruct (_file f) as [h|] eqn:Hf.
  - rewrite (get_file_cached h w f Hf). simpl. auto.
  - rewrite (get_file_fetch w f Hf).
    destruct (CloudFilesStorage._get_cloud_obj _ _ w) as [[obj|e] w1] eqn:Hfetch;
      apply fetch_keeps in Hfetch as (Ho & _ & Hobj); simpl; [|auto].
    destruct (Hobj obj eq_refl) as (x & Hx & ->).
    destruct Hok as (Hsz & Hps & Hfl).
    split; [exact Ho|]. split; [|split]; simpl.
    + exact Hsz.
    + intros p [= <-]. eauto.
    + intros h [= <-]. reflexivity.
Qed.

Lemma get_size_keeps_ok (w : world) (f : t) :
  stream_ok (objects w) f ->
  let st' := snd (_get_size (w, f)) in
  objects (fst st') = objects w /\ stream_ok (objects w) (snd st').
Proof.
  intros Hok. destruct (_size f) as [z|] eqn:Hs.
  - rewrite (get_size_cached z w f Hs). simpl. auto.
  - rewrite (get_size_fetch w f Hs).
    destruct (CloudFilesStorage._get_cloud_obj _ _ w) as [[obj|e] w1] eqn:Hfetch;
      apply fetch_keeps in Hfetch as (Ho & _ & Hobj); simpl; [|auto].
    destruct (Hobj obj eq_refl) as (x & Hx & ->).
    destruct Hok as (Hsz & Hps & Hfl).
    split; [exact Ho|]. split; [|split]; simpl.
    + intros z [= <-]. eauto.
    + exact Hps.
    + exact Hfl.
Qed.

(** A read on a stream just built raises: the cursor is set only when the
    handle is resolved. *)
Example read_on_new_stream :
  fst (read 0 (Scenario.world_with Scenario.container [],
                 __init__ Scenario.storage "a.txt")) = Raise AttributeError.
Proof. reflexivity. Qed.

End stream.

(** * More of the module *)

(** ** A remote without failures *)

(** The fetch when no failure is pending: one call, no warning. *)
Lemma fetch_quiet (self : CloudFilesStorage.t) (name : string) (w : world) :
  next_fault (faults w) = None ->
  CloudFilesStorage._get_cloud_obj self name w =
  (match objects w !! name with
   | Some x => Ok (handle name x)
   | None => Raise NoSuchObject
   end, after_call (call_get_object name) w).
Proof.
  intros Hn.
  unfold CloudFilesStorage._get_cloud_obj, CloudFilesStorage._get_cloud_obj_loop.
  assert (Hcall : get_object name w =
                  (match objects w !! name with
                   | Some x => Ok (handle name x)
                   | None => Raise NoSuchObject
                   end, after_call (call_get_object name) w)).
  { unfold get_object. rewrite (remote_through _ _ _ Hn).
    destruct (objects w !! name); reflexivity. }
  destruct (objects w !! name) as [x|].
  - erewrite retry_loop_success; [reflexivity | exact Hcall].
  - apply retry_loop_propagate; [exact Hcall | reflexivity].
Qed.

(** ** [exists], [size], [delete] *)

Lemma exists_quiet (self : CloudFilesStorage.t) (name : string) (w : world) :
  next_fault (faults w) = None ->
  CloudFilesStorage.exists_ self name w =
  (Ok (bool_decide (is_Some (objects w !! name))), after_call (call_get_object name) w).
Proof.
  intros Hn. unfold CloudFilesStorage.exists_, try_except, bind, ret.
  rewrite (fetch_quiet self name w Hn).
  destruct (objects w !! name) as [x|]; reflexivity.
Qed.

(** X1.  [exists] never raises not-found and changes no object; when it
    answers [True] the container holds the object; and when no failure is
    pending it answers, after one call, whether the container holds it. *)
Theorem exists_reports_presence (self : CloudFilesStorage.t) (name : string) (w : world) :
  let r := CloudFilesStorage.exists_ self name w in
  fst r <> Raise NoSuchObject /\
  objects (snd r) = objects w /\
  (fst r = Ok true -> is_Some (objects w !! name)) /\
  (next_fault (faults w) = None ->
   r = (Ok (bool_decide (is_Some (objects w !! name))),
        after_call (call_get_object name) w)).
Proof.
  cbn zeta. unfold CloudFilesStorage.exists_, try_except, bind, ret.
  split; [|split; [|split]].
  - destruct (CloudFilesStorage._get_cloud_obj self name w) as [[obj|e] w1];
      [discriminate|].
    destruct e; simpl; discriminate.
  - destruct (CloudFilesStorage._get_cloud_obj self name w) as [[obj|e] w1] eqn:Hf;
      apply fetch_keeps in Hf as (Ho & _).
    + exact Ho.
    + destruct (catches [NoSuchObject] e); exact Ho.
  - destruct (CloudFilesStorage._get_cloud_obj self name w) as [[obj|e] w1] eqn:Hf.
    + intros _. apply fetch_keeps in Hf as (_ & _ & Hobj).
      destruct (Hobj obj eq_refl) as (x & Hx & _). eauto.
    + destruct (catches [NoSuchObject] e); discriminate.
  - intros Hn. fold (try_except (A := bool) (S := world)).
    exact (exists_quiet self name w Hn).
Qed.

Lemma exists_reports_presence_witness :
  let w := Scenario.world_with Scenario.container [] in
  CloudFilesStorage.exists_ Scenario.storage "a.txt" w =
    (Ok true, after_call (call_get_object "a.txt") w) /\
  CloudFilesStorage.exists_ Scenario.storage "b.txt" w =
    (Ok false, after_call (call_get_object "b.txt") w) /\
  is_Some (objects w !! "a.txt").
Proof.
  intros w.
  destruct (exists_reports_presence Scenario.storage "a.txt" w) as (_ & _ & Htrue & Ha).
  destruct (exists_reports_presence Scenario.storage "b.txt" w) as (_ & _ & _ & Hb).
  split; [exact (Ha eq_refl)|]. split; [exact (Hb eq_refl)|].
  apply Htrue. reflexivity.
Defined.

(** X2.  A name the container does not hold, no failure pending: [size]
    raises not-found after one call, with no retry; a stream opened on the
    name is built without any call, and the first access to its size or to
    its file raises not-found and leaves the stream as it was, with no size,
    no handle and no cursor. *)
Theorem missing_object_is_reported_at_first_use (self : CloudFilesStorage.t)
    (name : string) (w : world) :
  next_fault (faults w) = None -> objects w !! name = None ->
  let f := CloudFilesStorageContainer._open self name in
  let w1 := after_call (call_get_object name) w in
  CloudFilesStorage.size self name w = (Raise NoSuchObject, w1) /\
  CloudFilesStorageFile._get_size (w, f) = (Raise NoSuchObject, (w1, f)) /\
  CloudFilesStorageFile._get_file (w, f) = (Raise NoSuchObject, (w1, f)) /\
  CloudFilesStorageFile._size f = None /\
  CloudFilesStorageFile._file f = None /\
  CloudFilesStorageFile._pos f = None.
Proof.
  intros Hn Hx f w1.
  assert (Hfetch : CloudFilesStorage._get_cloud_obj self name w = (Raise NoSuchObject, w1))
    by (rewrite (fetch_quiet self name w Hn), Hx; reflexivity).
  split; [|split; [|split]].
  - unfold CloudFilesStorage.size, bind. rewrite Hfetch. reflexivity.
  - unfold CloudFilesStorageFile._get_size, CloudFilesStorage.size, bind, gets, on_fst.
    simpl. rewrite Hfetch. reflexivity.
  - unfold CloudFilesStorageFile._get_file, bind, gets, on_fst.
    simpl. rewrite Hfetch. reflexivity.
  - repeat split.
Qed.

Lemma missing_object_is_reported_at_first_use_witness :
  let w := Scenario.world_with Scenario.container [] in
  CloudFilesStorage.size Scenario.storage "b.txt" w =
    (Raise NoSuchObject, after_call (call_get_object "b.txt") w).
Proof.
  intros w.
  apply (missing_object_is_reported_at_first_use Scenario.storage "b.txt" w);
    reflexivity.
Defined.

(** X3.  On a remote without failures [delete] returns after one call, the
    container then holds what it held except the name, and [exists] on the
    name answers [False]. *)
Theorem delete_removes_only_that_object (self : CloudFilesStorage.t) (name : string)
    (w : world) :
  faults w = [] ->
  let w' := snd (CloudFilesStorage.delete self name w) in
  fst (CloudFilesStorage.delete self name w) = Ok tt /\
  objects w' = base.delete name (objects w) /\
  (forall n, n <> name -> objects w' !! n = objects w !! n) /\
  calls w' = calls w ++ [call_delete_object name] /\
  fst (CloudFilesStorage.exists_ self name w') = Ok false.
Proof.
  intros Hf.
  assert (Hn : next_fault (faults w) = None) by (rewrite Hf; reflexivity).
  assert (Hdel : CloudFilesStorage.delete self name w =
                 (Ok tt, {| objects := base.delete name (objects w); faults := [];
                            calls := calls w ++ [call_delete_object name];
                            log := log w |})).
  { unfold CloudFilesStorage.delete, CloudFilesStorage.delete_loop.
    destruct (objects w !! name) as [x|] eqn:Hx.
    - erewrite retry_loop_success; [reflexivity|].
      unfold delete_object. rewrite (remote_through _ _ _ Hn), Hx, Hf. reflexivity.
    - erewrite retry_loop_swallow with (e := NoSuchObject); [reflexivity | | reflexivity].
      unfold delete_object. rewrite (remote_through _ _ _ Hn), Hx, Hf. simpl.
      rewrite delete_id by exact Hx. reflexivity. }
  cbn zeta. rewrite Hdel. cbn [fst snd objects calls].
  split; [reflexivity|]. split; [reflexivity|].
  split; [intros n Hne; apply lookup_delete_ne; congruence|].
  split; [reflexivity|].
  rewrite exists_quiet by reflexivity.
  cbn [fst objects]. rewrite lookup_delete_eq. reflexivity.
Qed.

Lemma delete_removes_only_that_object_witness :
  let w := Scenario.world_with Scenario.container [] in
  let w' := snd (CloudFilesStorage.delete Scenario.storage "a.txt" w) in
  fst (CloudFilesStorage.delete Scenario.storage "a.txt" w) = Ok tt /\
  objects w' = base.delete "a.txt" (objects w) /\
  (forall n, n <> "a.txt" -> objects w' !! n = objects w !! n) /\
  calls w' = calls w ++ [call_delete_object "a.txt"] /\
  fst (CloudFilesStorage.exists_ Scenario.storage "a.txt" w') = Ok false.
Proof.
  intros w.
  exact (delete_removes_only_that_object Scenario.storage "a.txt" w eq_refl).
Defined.

(** ** [_save] on a remote without failures *)

Lemma string_drop_0 (s : string) : string_drop 0 s = s.
Proof. destruct s; reflexivity. Qed.

Section save_quiet.
Context `{Imports}.
Variable self : CloudFilesStorage.t.
Variable name : string.

Local Abbreviation md5_of c := (hexdigest (get_checksum (c_bytes c))).

(** What the container holds under the name after the content is saved. *)
Local Abbreviation saved c :=
  {| s_etag := Some (md5_of c);
     s_total_bytes := Z.of_nat (String.length (c_bytes c));
     s_bytes := c_bytes c |}.

(** [_save] of a content that has to be sent: one fetch, one upload. *)
Lemma save_quiet (w : world) (c c1 : content) :
  faults w = [] ->
  content_open c = (Ok tt, c1) ->
  up_to_date (objects w) name (md5_of c) = false ->
  CloudFilesStorage._save self name (w, c) =
  (Ok name,
   ({| objects := <[name := saved c]> (objects w);
       faults := [];
       calls := calls w ++
                [call_get_object name;
                 call_upload_file name (content_type_of name c1) (md5_of c)
                   (CloudFilesStorage._headers_for name HEADER_PATTERNS) (c_bytes c)];
       log := log w |},
    set_pos (String.length (c_bytes c)) c1)).
Proof.
  intros Hf Hopen Hup.
  destruct (content_open_keeps c c1 Hopen) as (Hb & Hp & _ & _).
  assert (Hn : next_fault (faults w) = None) by (rewrite Hf; reflexivity).
  pose proof (fetch_quiet self name w Hn) as Hfetch.
  assert (Hstep : save_upload_step self name (after_call (call_get_object name) w, c1) =
    (Ok name,
     ({| objects := <[name := saved c]> (objects w);
         faults := [];
         calls := calls w ++
                  [call_get_object name;
                   call_upload_file name (content_type_of name c1) (md5_of c)
                     (CloudFilesStorage._headers_for name HEADER_PATTERNS) (c_bytes c)];
         log := log w |},
      set_pos (String.length (c_bytes c)) c1))).
  { unfold save_upload_step, CloudFilesStorage._save_upload_loop. cbn [fst snd].
    erewrite retry_loop_success;
      [| apply upload_file_through; simpl; rewrite Hf; reflexivity].
    cbn [fst snd else_suite_runs]. unfold uploaded, upload_call.
    rewrite Hp, Hb, string_drop_0. simpl. rewrite Hf. simpl.
    rewrite <- (List.app_assoc (calls w) [_] [_]). reflexivity. }
  unfold up_to_date in Hup.
  destruct (objects w !! name) as [x|] eqn:Hx.
  - rewrite (save_uploads_found self name w _ c c1 _ Hfetch Hup Hopen). exact Hstep.
  - rewrite (save_uploads_missing self name w _ c c1 Hfetch Hopen). exact Hstep.
Qed.

(** X4.  On a remote without failures, a content that can be opened and
    whose checksum is not the one reported for the name is saved with one
    upload call, which carries the name, the content type of the file, else
    of the content, else guessed from the name, the checksum, the headers of
    the name and all the bytes; [_save] returns the name; the container then
    holds the bytes under the name, with that checksum and their length,
    and what it held under other names; the content is left open. *)
Theorem save_stores_the_content (w : world) (c c1 : content) :
  faults w = [] ->
  content_open c = (Ok tt, c1) ->
  up_to_date (objects w) name (md5_of c) = false ->
  let r := CloudFilesStorage._save self name (w, c) in
  let w' := fst (snd r) in
  fst r = Ok name /\
  objects w' !! name = Some (saved c) /\
  (forall n, n <> name -> objects w' !! n = objects w !! n) /\
  uploads (calls w') = S (uploads (calls w)) /\
  last (calls w') =
    Some (call_upload_file name (content_type_of name c1) (md5_of c)
            (CloudFilesStorage._headers_for name HEADER_PATTERNS) (c_bytes c)) /\
  c_closed (snd (snd r)) = false.
Proof.
  intros Hf Hopen Hup. cbn zeta. rewrite (save_quiet w c c1 Hf Hopen Hup).
  cbn [fst snd objects calls].
  split; [reflexivity|]. split; [apply lookup_insert_eq|].
  split; [intros n Hne; apply lookup_insert_ne; congruence|].
  split; [|split].
  - unfold uploads. rewrite List.filter_app, length_app. simpl. lia.
  - rewrite cons_middle, app_assoc. apply last_snoc.
  - apply content_open_keeps in Hopen. simpl. tauto.
Qed.

(** X5.  Under the same conditions, saving the same content again right
    after sends nothing: one fetch, no upload, the container and the content
    as the first save left them. *)
Theorem save_again_uploads_nothing (w : world) (c c1 : content) :
  faults w = [] ->
  content_open c = (Ok tt, c1) ->
  up_to_date (objects w) name (md5_of c) = false ->
  let st1 := snd (CloudFilesStorage._save self name (w, c)) in
  CloudFilesStorage._save self name st1 =
    (Ok name, (after_call (call_get_object name) (fst st1), snd st1)).
Proof.
  intros Hf Hopen Hup. cbn zeta. rewrite (save_quiet w c c1 Hf Hopen Hup).
  cbn [fst snd].
  destruct (content_open_keeps c c1 Hopen) as (Hb & _).
  eapply save_dedup.
  - rewrite fetch_quiet by reflexivity. cbn [objects].
    rewrite lookup_insert_eq. reflexivity.
  - simpl. rewrite Hb. reflexivity.
Qed.

End save_quiet.

Lemma save_stores_the_content_witness :
  let w := Scenario.world_with Scenario.container [] in
  let r := CloudFilesStorage._save (H := Scenario.imports) Scenario.storage "new.txt"
             (w, Scenario.file_of "hello") in
  fst r = Ok "new.txt" /\
  objects (fst (snd r)) !! "new.txt" =
    Some {| s_etag := Some "5d41402abc4b2a76b9719d911017c592";
            s_total_bytes := 5; s_bytes := "hello" |} /\
  uploads (calls (fst (snd r))) = 1%nat /\
  last (calls (fst (snd r))) =
    Some (call_upload_file "new.txt" (Some "text/plain")
            "5d41402abc4b2a76b9719d911017c592" ∅ "hello").
Proof.
  intros w r.
  destruct (save_stores_the_content (H := Scenario.imports) Scenario.storage "new.txt" w
              (Scenario.file_of "hello") (Scenario.file_of "hello")
              eq_refl eq_refl eq_refl) as (Hr & Ho & _ & Hu & Hl & _).
  split; [exact Hr|]. split; [exact Ho|]. split; [exact Hu | exact Hl].
Defined.

Lemma save_again_uploads_nothing_witness :
  let w := Scenario.world_with Scenario.container [] in
  let st1 := snd (CloudFilesStorage._save (H := Scenario.imports) Scenario.storage
                    "new.txt" (w, Scenario.file_of "hello")) in
  CloudFilesStorage._save (H := Scenario.imports) Scenario.storage "new.txt" st1 =
    (Ok "new.txt", (after_call (call_get_object "new.txt") (fst st1), snd st1)).
Proof.
  intros w.
  exact (save_again_uploads_nothing (H := Scenario.imports) Scenario.storage "new.txt" w
           (Scenario.file_of "hello") (Scenario.file_of "hello")
           eq_refl eq_refl eq_refl).
Defined.

(** X7.  When the fetch at the start of [_save] exhausts its retries, with
    [max_retries >= 0] and [max_retries + 1] failures of a retried class,
    [_save] raises that error: it has made no upload call, changed no object
    and not touched the content, and has logged [max_retries] warnings. *)
Theorem save_gives_up_with_the_fetch `{Imports} (self : CloudFilesStorage.t)
    (name : string) (e : exn) (w : world) (c : content) (fs : list (option exn)) :
  0 <= CloudFilesStorage.max_retries self ->
  catches [HTTPException; SSLError; ServiceResponseFailure] e = true ->
  faults w =
    repeat (Some e) (S (Z.to_nat (CloudFilesStorage.max_retries self))) ++ fs ->
  exists w',
    CloudFilesStorage._save self name (w, c) = (Raise e, (w', c)) /\
    objects w' = objects w /\
    uploads (calls w') = uploads (calls w) /\
    faults w' = fs /\
    attempts_logged w w' = Z.to_nat (CloudFilesStorage.max_retries self).
Proof.
  intros Hmax He Hf.
  assert (Hfetch : CloudFilesStorage._get_cloud_obj self name w =
            (Raise e, after_call (call_get_object name)
                        (after_failures (call_get_object name) "retrieve" name e
                           (CloudFilesStorage.max_retries self) 0
                           (Z.to_nat (CloudFilesStorage.max_retries self)) w))).
  { unfold CloudFilesStorage._get_cloud_obj, CloudFilesStorage._get_cloud_obj_loop,
      get_object.
    eapply (world_loop_exhausted _ _ _ _ "retrieve" name e w fs);
      [apply fetch_handler_retry; exact He | exact Hmax | exact Hf]. }
  eexists. split; [|split; [|split; [|split]]].
  - apply save_fetch_raises; [exact Hfetch|]. intros ->. discriminate He.
  - reflexivity.
  - apply fetch_keeps in Hfetch. tauto.
  - simpl. rewrite Hf.
    set (n := Z.to_nat (CloudFilesStorage.max_retries self)).
    change (Some e :: repeat (Some e) n ++ fs) with (repeat (Some e) (S n) ++ fs).
    replace (S n) with (n + 1)%nat by lia.
    rewrite repeat_app, <- app_assoc, skipn_repeat_app. reflexivity.
  - apply after_failures_logged.
Qed.

Lemma save_gives_up_with_the_fetch_witness :
  let w := Scenario.world_with Scenario.container (repeat (Some HTTPException) 6) in
  exists w',
    CloudFilesStorage._save (H := Scenario.imports) Scenario.storage "a.txt"
      (w, Scenario.file_of "world") = (Raise HTTPException, (w', Scenario.file_of "world")) /\
    objects w' = objects w /\
    uploads (calls w') = uploads (calls w) /\
    faults w' = [] /\
    attempts_logged w w' = 5%nat.
Proof.
  intros w.
  apply (save_gives_up_with_the_fetch (H := Scenario.imports) Scenario.storage "a.txt"
           HTTPException w (Scenario.file_of "world") []); [discriminate | reflexivity..].
Defined.

(** ** The headers of a name, table by table *)

Section headers_more.
Context `{Imports}.

Lemma headers_for_loop_app (name : string)
    (rules1 rules2 : list (pattern * gmap string string)) (acc : gmap string string) :
  CloudFilesStorage._headers_for_loop name (rules1 ++ rules2) acc =
  CloudFilesStorage._headers_for_loop name rules2
    (CloudFilesStorage._headers_for_loop name rules1 acc).
Proof.
  revert acc. induction rules1 as [|[p hs] rest IH]; intros acc; simpl; [reflexivity|].
  apply IH.
Qed.

Lemma last_setting_app (name key : string)
    (rules1 rules2 : list (pattern * gmap string string)) :
  last_setting (rules1 ++ rules2) name key =
  match last_setting rules2 name key with
  | Some v => Some v
  | None => last_setting rules1 name key
  end.
Proof.
  induction rules1 as [|[p hs] rest IH]; simpl.
  - destruct (last_setting rules2 name key); reflexivity.
  - rewrite IH. destruct (last_setting rules2 name key); reflexivity.
Qed.

(** X8.  The headers of a name under a table followed by another are the
    headers under the second table, completed, for the keys the second does
    not give, by the headers under the first; so rules that do not match
    the name can be dropped without changing the result. *)
Theorem headers_for_of_joined_tables (name : string)
    (rules1 rules2 : list (pattern * gmap string string)) :
  CloudFilesStorage._headers_for name (rules1 ++ rules2) =
    CloudFilesStorage._headers_for name rules2 ∪ CloudFilesStorage._headers_for name rules1 /\
  CloudFilesStorage._headers_for name
    (List.filter (fun rule => re_match (fst rule) name) rules1) =
    CloudFilesStorage._headers_for name rules1.
Proof.
  split.
  - apply map_eq. intros key. rewrite lookup_union.
    unfold CloudFilesStorage._headers_for.
    rewrite !headers_for_loop_lookup, !lookup_empty, last_setting_app.
    destruct (last_setting rules2 name key), (last_setting rules1 name key); reflexivity.
  - unfold CloudFilesStorage._headers_for. generalize (∅ : gmap string string).
    induction rules1 as [|[p hs] rest IH]; intros acc; simpl; [reflexivity|].
    destruct (re_match p name) eqn:Hp; simpl; [rewrite Hp|]; apply IH.
Qed.

(** X9.  A header in the result was given, with that value, by a rule of
    the table whose pattern matches the name: [_headers_for] adds no header
    of its own, and with no matching rule it gives no header. *)
Theorem headers_for_come_from_matching_rules (name key value : string)
    (rules : list (pattern * gmap string string)) :
  CloudFilesStorage._headers_for name rules !! key = Some value ->
  exists p hs, In (p, hs) rules /\ re_match p name = true /\ hs !! key = Some value.
Proof.
  unfold CloudFilesStorage._headers_for.
  rewrite headers_for_loop_lookup, lookup_empty.
  induction rules as [|[p hs] rest IH]; simpl; [discriminate|].
  destruct (last_setting rest name key) as [v|] eqn:Hl.
  - intros Hv. destruct (IH Hv) as (p' & hs' & Hin & Hm & Hk). eauto 10.
  - destruct (re_match p name) eqn:Hp; [|discriminate].
    destruct (hs !! key) as [v|] eqn:Hk; [|discriminate].
    intros [= <-]. exists p, hs. auto.
Qed.

End headers_more.

Lemma headers_for_come_from_matching_rules_witness :
  exists p hs,
    In (p, hs) [Scenario.rule_A; Scenario.rule_B] /\
    regex_match p "app/style.css" = true /\ hs !! "X" = Some "2".
Proof.
  apply (headers_for_come_from_matching_rules (H := Scenario.imports)
           "app/style.css" "X" "2" [Scenario.rule_A; Scenario.rule_B]).
  vm_compute. reflexivity.
Defined.

(** ** [listdir], once more *)

(** X10.  [listdir] is not retried: whatever happens it makes one call,
    logs nothing and changes no object, and a failure of that call, of
    whatever class, is raised at once. *)
Theorem listdir_is_not_retried (self : CloudFilesStorage.t) (path : string) (w : world) :
  let r := CloudFilesStorage.listdir self path w in
  calls (snd r) = calls w ++ [call_list_all (CloudFilesStorage.listdir_path path)] /\
  log (snd r) = log w /\
  objects (snd r) = objects w /\
  (forall e, next_fault (faults w) = Some e -> fst r = Raise e).
Proof.
  cbn zeta. unfold CloudFilesStorage.listdir, bind, ret.
  destruct (list_all (CloudFilesStorage.listdir_path path) w) as [r0 w1] eqn:Hl.
  unfold list_all in Hl. apply remote_cases in Hl as (Hc & Hlog & _ & Hcase).
  assert (Ho : objects w1 = objects w).
  { destruct Hcase as [(e & _ & _ & Ho) | [_ Hop]]; [exact Ho|].
    injection Hop as _ <-. reflexivity. }
  split; [|split; [|split]].
  - destruct r0; simpl; exact Hc.
  - destruct r0; simpl; exact Hlog.
  - destruct r0; simpl; exact Ho.
  - intros e He. destruct Hcase as [(e' & He' & -> & _) | [Hnone _]]; [|congruence].
    simpl. congruence.
Qed.

Lemma listdir_is_not_retried_witness :
  fst (CloudFilesStorage.listdir Scenario.storage "css"
         (Scenario.world_with Scenario.container [Some HTTPException; None])) =
    Raise HTTPException.
Proof.
  apply (listdir_is_not_retried Scenario.storage "css"
           (Scenario.world_with Scenario.container [Some HTTPException; None])).
  reflexivity.
Defined.

Lemma endswith_append (s suffix : string) : endswith (s ++ suffix)%string suffix = true.
Proof. apply endswith_spec. exists s. reflexivity. Qed.

(** X11.  The path [listdir] lists under is the empty path or ends with
    "/", and normalising it again changes nothing: listing "p" and listing
    "p/" are the same call with the same result. *)
Theorem listdir_path_is_normal (self : CloudFilesStorage.t) (path : string) (w : world) :
  (CloudFilesStorage.listdir_path path = EmptyString \/
   endswith (CloudFilesStorage.listdir_path path) "/" = true) /\
  (CloudFilesStorage.listdir_path path = EmptyString <-> path = EmptyString) /\
  CloudFilesStorage.listdir_path (CloudFilesStorage.listdir_path path) =
    CloudFilesStorage.listdir_path path /\
  CloudFilesStorage.listdir self (CloudFilesStorage.listdir_path path) w =
    CloudFilesStorage.listdir self path w.
Proof.
  assert (Hnorm : CloudFilesStorage.listdir_path path = EmptyString /\ path = EmptyString \/
                  endswith (CloudFilesStorage.listdir_path path) "/" = true /\
                  path <> EmptyString /\
                  CloudFilesStorage.listdir_path path <> EmptyString).
  { unfold CloudFilesStorage.listdir_path.
    destruct (String.eqb_spec path EmptyString) as [->|Hne]; [left; split; reflexivity|].
    right. simpl. destruct (endswith path "/") eqn:He; simpl.
    - auto.
    - split; [apply endswith_append|]. split; [exact Hne|].
      destruct path; [congruence | discriminate]. }
  assert (Hidem : CloudFilesStorage.listdir_path (CloudFilesStorage.listdir_path path) =
                  CloudFilesStorage.listdir_path path).
  { destruct Hnorm as [[-> _] | (He & _ & _)]; [reflexivity|].
    unfold CloudFilesStorage.listdir_path at 1. rewrite He, andb_false_r. reflexivity. }
  split; [tauto|]. split; [|split].
  - split; [|intros ->; reflexivity]. destruct Hnorm as [[_ Hp] | (_ & _ & Hne)]; tauto.
  - exact Hidem.
  - unfold CloudFilesStorage.listdir. rewrite Hidem. reflexivity.
Qed.

(** ** The stream, method by method *)

Section stream_more.
Import CloudFilesStorageFile.

(** [read] after its first test: the handle, the fetch, the cursor. *)
Local Abbreviation read_rest :=
  (bind _get_file
     (fun file =>
        bind (on_fst (get file))
          (fun data =>
             bind get_pos
               (fun pos =>
                  bind (modify (fun st : world * t =>
                                  (fst st, set_pos (pos + Z.of_nat (String.length data))
                                             (snd st))))
                    (fun _ => ret data))))).

(** X12.  [read] does not look at its byte limit: in any state, two reads
    with different limits return the same and leave the same state. *)
Theorem read_ignores_its_byte_limit (n m : Z) (st : world * t) :
  read n st = read m st.
Proof.
  destruct st as [w f]. destruct (_pos f) as [p|] eqn:Hp.
  - rewrite (read_normal n p w f Hp), (read_normal m p w f Hp). reflexivity.
  - rewrite !read_without_cursor by exact Hp. reflexivity.
Qed.

(** X13.  The size of a stream is fetched once: after an access that
    returned it, every later access returns the same number without a call,
    whatever the container holds by then; the access leaves the handle and
    the cursor alone; and a size that was assigned is returned as it is. *)
Theorem size_is_resolved_once (w w1 : world) (f f1 : t) (z : Z) :
  _get_size (w, f) = (Ok z, (w1, f1)) ->
  (forall w2, _get_size (w2, f1) = (Ok z, (w2, f1))) /\
  _file f1 = _file f /\ _pos f1 = _pos f /\
  (forall z' w2, _get_size (w2, snd (snd (_set_size z' (w1, f1)))) =
                 (Ok z', (w2, snd (snd (_set_size z' (w1, f1)))))).
Proof.
  intros Hg. apply get_size_result in Hg as (Hp & Hf & _ & _ & Hz).
  split; [|split; [|split]]; [|exact Hf|exact Hp|].
  - intros w2. apply get_size_cached. exact Hz.
  - intros z' w2. apply get_size_cached. reflexivity.
Qed.

Lemma size_is_resolved_once_witness :
  let w := Scenario.world_with Scenario.container [] in
  let st1 := snd (_get_size (w, CloudFilesStorageContainer._open Scenario.storage "a.txt")) in
  let w2 := Scenario.world_with ∅ [Some HTTPException] in
  _get_size (w2, snd st1) = (Ok 5, (w2, snd st1)).
Proof.
  intros w st1 w2.
  apply (size_is_resolved_once w (fst st1)
           (CloudFilesStorageContainer._open Scenario.storage "a.txt") (snd st1) 5).
  vm_compute. reflexivity.
Defined.

(** X14.  The handle of a stream is fetched once, and fetching it is what
    sets the cursor, to 0: after an access that returned it, later accesses
    return it without a call; if the stream had no handle the cursor is then
    0, whatever it was; if it had one nothing changed.  So after
    [file = None] the next access fetches again and rewinds. *)
Theorem file_is_resolved_once (w w1 : world) (f f1 : t) (h : cloud_obj) :
  _get_file (w, f) = (Ok h, (w1, f1)) ->
  (forall w2, _get_file (w2, f1) = (Ok h, (w2, f1))) /\
  (_file f = None -> _pos f1 = Some 0 /\ obj_name h = name f) /\
  (is_Some (_file f) -> w1 = w /\ f1 = f) /\
  _size f1 = _size f /\
  _file (snd (snd (_set_file None (w1, f1)))) = None.
Proof.
  intros Hg. destruct (_file f) as [h0|] eqn:Hf.
  - rewrite (get_file_cached h0 w f Hf) in Hg. injection Hg as <- <- <-.
    split; [|split; [|split; [|split]]];
      [| discriminate | auto | reflexivity | reflexivity].
    intros w2. apply get_file_cached. exact Hf.
  - rewrite (get_file_fetch w f Hf) in Hg.
    destruct (CloudFilesStorage._get_cloud_obj _ _ w) as [[obj|e] w2] eqn:Hfetch;
      [|discriminate].
    injection Hg as <- <- <-.
    apply fetch_keeps in Hfetch as (_ & _ & Hobj).
    destruct (Hobj obj eq_refl) as (x & _ & ->).
    split; [|split; [|split; [|split]]]; [| auto | | reflexivity | reflexivity].
    + intros w3. apply get_file_cached. reflexivity.
    + intros [? [=]].
Qed.

Lemma file_is_resolved_once_witness :
  let w := Scenario.world_with Scenario.container [] in
  let f := snd (snd (_set_file None (w, Scenario.opened_stream))) in
  let st1 := snd (_get_file (w, f)) in
  _pos (snd st1) = Some 0 /\
  forall w2, _get_file (w2, snd st1) =
             (Ok (handle "a.txt" {| s_etag := Some "5d41402abc4b2a76b9719d911017c592";
                                    s_total_bytes := 5; s_bytes := "hello" |}),
              (w2, snd st1)).
Proof.
  intros w f st1.
  destruct (file_is_resolved_once w (fst st1) f (snd st1)
              (handle "a.txt" {| s_etag := Some "5d41402abc4b2a76b9719d911017c592";
                                 s_total_bytes := 5; s_bytes := "hello" |}))
    as (Hagain & Hnew & _).
  - vm_compute. reflexivity.
  - split; [apply Hnew; reflexivity | exact Hagain].
Defined.

(** X15.  A stream cannot be read before its handle has been fetched: on a
    stream just opened, and on one whose size alone was fetched, [read]
    raises AttributeError, in every world, and changes nothing. *)
Theorem read_needs_the_handle (self : CloudFilesStorage.t) (name_ : string) (n : Z)
    (w : world) :
  let f := CloudFilesStorageContainer._open self name_ in
  let st := snd (_get_size (w, f)) in
  read n (w, f) = (Raise AttributeError, (w, f)) /\
  read n st = (Raise AttributeError, st).
Proof.
  cbn zeta. split; [apply read_without_cursor; reflexivity|].
  destruct (_get_size (w, CloudFilesStorageContainer._open self name_))
    as [r [w1 f1]] eqn:Hg.
  apply get_size_result in Hg as (Hp & _). simpl.
  apply read_without_cursor. rewrite Hp. reflexivity.
Qed.

Lemma length_0_empty (s : string) : String.length s = 0%nat -> s = EmptyString.
Proof. destruct s; [reflexivity | discriminate]. Qed.

(** The first read of a stream whose handle was fetched, on a remote
    without failures. *)
Lemma read_whole (n : Z) (w : world) (f : t) (h : cloud_obj) (x : stored) :
  faults w = [] ->
  _pos f = Some 0 -> _file f = Some h -> obj_name h = name f ->
  objects w !! name f = Some x -> reports_true_size x ->
  (_size f = None \/ _size f = Some (s_total_bytes x)) ->
  let r := read n (w, f) in
  fst r = Ok (s_bytes x) /\
  _pos (snd (snd r)) = Some (Z.of_nat (String.length (s_bytes x))) /\
  _size (snd (snd r)) = Some (s_total_bytes x) /\
  _file (snd (snd r)) = Some h /\
  name (snd (snd r)) = name f /\
  faults (fst (snd r)) = [] /\
  objects (fst (snd r)) = objects w.
Proof.
  intros Hf Hp Hfile Hname Hx Htrue Hsize. cbn zeta.
  rewrite (read_normal n 0 w f Hp).
  assert (Hg : exists w1 f1,
             _get_size (w, f) = (Ok (s_total_bytes x), (w1, f1)) /\
             faults w1 = [] /\ objects w1 = objects w).
  { destruct Hsize as [Hs | Hs].
    - rewrite (get_size_fetch w f Hs), fetch_quiet, Hx by (rewrite Hf; reflexivity).
      eexists _, _. split; [reflexivity|]. simpl. rewrite Hf. auto.
    - rewrite (get_size_cached _ w f Hs). eauto. }
  destruct Hg as (w1 & f1 & Hg & Hf1 & Ho1). rewrite Hg.
  apply get_size_result in Hg as (Hp1 & Hfile1 & Hn1 & _ & Hz).
  rewrite Hp in Hp1. rewrite Hfile in Hfile1.
  unfold reports_true_size in Htrue.
  destruct (Z.eqb_spec 0 (s_total_bytes x)) as [H0|Hne].
  - assert (Hempty : s_bytes x = EmptyString) by (apply length_0_empty; lia).
    simpl. rewrite Hempty, Hp1, Hz, Hfile1. simpl. repeat split; auto.
  - assert (Hrest : exists w2,
               read_rest (w1, f1) =
               (Ok (s_bytes x),
                (w2, set_pos (0 + Z.of_nat (String.length (s_bytes x))) f1)) /\
               faults w2 = [] /\ objects w2 = objects w).
    { unfold bind at 1. rewrite (get_file_cached h w1 f1 Hfile1).
      unfold bind at 1. unfold on_fst at 1. cbn [fst snd].
      unfold get. rewrite remote_through by (rewrite Hf1; reflexivity).
      rewrite Ho1, Hname, Hx. cbn [fst snd].
      unfold bind at 1. unfold get_pos at 1. cbn [fst snd]. rewrite Hp1.
      eexists. split; [reflexivity|]. simpl. rewrite Hf1. auto. }
    destruct Hrest as (w2 & Hrest & Hf2 & Ho2).
    rewrite Hrest. simpl. repeat split; auto.
Qed.

(** X16.  On a remote without failures, the first read of a stream whose
    handle was fetched returns all the bytes of the object, whatever the
    byte limit, and puts the cursor at their length; the read after it
    returns the empty string and calls nothing. *)
Theorem read_returns_the_whole_object (n m : Z) (w : world) (f : t) (h : cloud_obj)
    (x : stored) :
  faults w = [] ->
  _pos f = Some 0 -> _file f = Some h -> obj_name h = name f ->
  objects w !! name f = Some x -> reports_true_size x ->
  (_size f = None \/ _size f = Some (s_total_bytes x)) ->
  let r1 := read n (w, f) in
  let r2 := read m (snd r1) in
  fst r1 = Ok (s_bytes x) /\
  _pos (snd (snd r1)) = Some (Z.of_nat (String.length (s_bytes x))) /\
  r2 = (Ok EmptyString, snd r1).
Proof.
  intros Hf Hp Hfile Hname Hx Htrue Hsize. cbn zeta.
  destruct (read_whole n w f h x Hf Hp Hfile Hname Hx Htrue Hsize)
    as (Hr & Hpos & Hsz & _).
  split; [exact Hr|]. split; [exact Hpos|].
  destruct (read n (w, f)) as [r [w1 f1]]. simpl in *.
  apply (read_at_end m (s_total_bytes x)); [|exact Hsz].
  rewrite Hpos, Htrue. reflexivity.
Qed.

Lemma read_returns_the_whole_object_witness :
  let st := (Scenario.world_with Scenario.container [], Scenario.opened_stream) in
  let r1 := read 2 st in
  let r2 := read 0 (snd r1) in
  fst r1 = Ok "hello" /\ _pos (snd (snd r1)) = Some 5 /\ r2 = (Ok EmptyString, snd r1).
Proof.
  apply (read_returns_the_whole_object 2 0
           (Scenario.world_with Scenario.container []) Scenario.opened_stream
           (handle "a.txt" {| s_etag := Some "5d41402abc4b2a76b9719d911017c592";
                              s_total_bytes := 5; s_bytes := "hello" |})
           {| s_etag := Some "5d41402abc4b2a76b9719d911017c592";
              s_total_bytes := 5; s_bytes := "hello" |});
    first [reflexivity | left; reflexivity].
Defined.

End stream_more.

(** ** Saving, then reading *)

Section round_trip.
Context `{Imports}.
Import CloudFilesStorageFile.

(** X6.  What is saved can be read back.  On a remote without failures,
    after a content was saved under a name with an upload, a stream opened
    on that name reports the length of the content as its size and, once
    its handle is fetched, its first read returns the bytes of the content,
    whatever the byte limit. *)
Theorem saved_content_reads_back (self : CloudFilesStorage.t) (name_ : string)
    (w : world) (c c1 : content) (n : Z) :
  faults w = [] ->
  content_open c = (Ok tt, c1) ->
  up_to_date (objects w) name_ (hexdigest (get_checksum (c_bytes c))) = false ->
  let w' := fst (snd (CloudFilesStorage._save self name_ (w, c))) in
  let f := CloudFilesStorageContainer._open self name_ in
  fst (_get_size (w', f)) = Ok (Z.of_nat (String.length (c_bytes c))) /\
  fst (read n (snd (_get_file (w', f)))) = Ok (c_bytes c).
Proof.
  intros Hf Hopen Hup. cbn zeta.
  rewrite (save_quiet self name_ w c c1 Hf Hopen Hup). cbn [fst snd].
  set (w' := {| objects := _; faults := []; calls := _; log := _ |}).
  set (x := {| s_etag := _; s_total_bytes := _; s_bytes := c_bytes c |}) in w'.
  assert (Hx : objects w' !! name_ = Some x) by apply lookup_insert_eq.
  split.
  - rewrite get_size_fetch by reflexivity.
    change (name (CloudFilesStorageContainer._open self name_)) with name_.
    change (_container (CloudFilesStorageContainer._open self name_)) with self.
    rewrite fetch_quiet by reflexivity. rewrite Hx. reflexivity.
  - rewrite get_file_fetch by reflexivity.
    change (name (CloudFilesStorageContainer._open self name_)) with name_.
    change (_container (CloudFilesStorageContainer._open self name_)) with self.
    rewrite fetch_quiet by reflexivity. rewrite Hx. cbn [fst snd].
    apply (read_whole n _ _ (handle name_ x) x); try reflexivity.
    + exact Hx.
    + left. reflexivity.
Qed.

End round_trip.

Lemma saved_content_reads_back_witness :
  let w := Scenario.world_with Scenario.container [] in
  let w' := fst (snd (CloudFilesStorage._save (H := Scenario.imports) Scenario.storage
                        "new.txt" (w, Scenario.file_of "hello"))) in
  let f := CloudFilesStorageContainer._open Scenario.storage "new.txt" in
  fst (CloudFilesStorageFile._get_size (w', f)) = Ok 5 /\
  fst (CloudFilesStorageFile.read 3 (snd (CloudFilesStorageFile._get_file (w', f)))) =
    Ok "hello".
Proof.
  exact (saved_content_reads_back (H := Scenario.imports) Scenario.storage "new.txt"
           (Scenario.world_with Scenario.container [])
           (Scenario.file_of "hello") (Scenario.file_of "hello") 3
           eq_refl eq_refl eq_refl).
Defined.

Section stream_failures.
Import CloudFilesStorageFile.

(** X17.  The fetch inside [read] is not retried.  When the cursor is not
    at the size and the next remote call fails, with an error of any class,
    [read] raises that error after this one call: nothing is logged and the
    stream, its cursor included, is as it was. *)
Theorem read_does_not_retry (n p z : Z) (w : world) (f : t) (h : cloud_obj) (e : exn) :
  _pos f = Some p -> _size f = Some z -> p <> z -> _file f = Some h ->
  next_fault (faults w) = Some e ->
  read n (w, f) = (Raise e, (after_call (call_get (obj_name h)) w, f)) /\
  log (after_call (call_get (obj_name h)) w) = log w.
Proof.
  intros Hp Hz Hne Hfile He. split; [|reflexivity].
  rewrite (read_normal n p w f Hp), (get_size_cached z w f Hz).
  destruct (Z.eqb_spec p z) as [|_]; [contradiction|].
  unfold bind at 1. rewrite (get_file_cached h w f Hfile).
  unfold bind at 1. unfold on_fst, get. cbn [fst snd].
  rewrite (remote_fault _ _ w e He). reflexivity.
Qed.

Lemma read_does_not_retry_witness :
  let w := Scenario.world_with Scenario.container [Some socket_error; None] in
  let f := snd (snd (_get_size (Scenario.world_with Scenario.container [],
                                Scenario.opened_stream))) in
  read 0 (w, f) = (Raise socket_error, (after_call (call_get "a.txt") w, f)).
Proof.
  intros w f.
  apply (read_does_not_retry 0 0 5 w f
           (handle "a.txt" {| s_etag := Some "5d41402abc4b2a76b9719d911017c592";
                              s_total_bytes := 5; s_bytes := "hello" |}) socket_error);
    first [reflexivity | discriminate].
Defined.

End stream_failures.

(** ** The container handle and the public address *)

Section container.
Import CloudFilesStorageContainer.

(** The address [container_url] takes from a container handle. *)
Local Abbreviation address_of i c :=
  (if CloudFilesStorage.use_ssl (self i) then Pyrax.cdn_ssl_uri c else Pyrax.cdn_uri c).

Lemma get_container_cached (c : Pyrax.container) (a : Pyrax.account) (i : t) :
  _container i = Some c -> _get_container (a, i) = (Ok c, (a, i)).
Proof.
  intros Hc. unfold _get_container, bind, gets. cbn [fst snd]. rewrite Hc. reflexivity.
Qed.

Lemma get_container_fetch (a : Pyrax.account) (i : t) :
  _container i = None ->
  _get_container (a, i) =
  match Pyrax.get_container (CloudFilesStorage.container_name (self i)) a with
  | (Ok c, a1) => (Ok c, (a1, {| self := self i; _container := Some c |}))
  | (Raise e, a1) => (Raise e, (a1, i))
  end.
Proof.
  intros Hc. unfold _get_container, bind, gets, on_fst, modify, ret. cbn [fst snd].
  rewrite Hc. cbn [fst snd].
  destruct (Pyrax.get_container _ a) as [[c|e] a1]; reflexivity.
Qed.

Lemma container_url_cached (u : string) (a : Pyrax.account) (i : t) :
  CloudFilesStorage._container_public_uri (self i) = Some u ->
  container_url (a, i) = (Ok u, (a, i)).
Proof.
  intros Hu. unfold container_url, bind, gets. cbn [fst snd]. rewrite Hu. reflexivity.
Qed.

Lemma container_url_resolve (a : Pyrax.account) (i : t) :
  CloudFilesStorage._container_public_uri (self i) = None ->
  container_url (a, i) =
  match _get_container (a, i) with
  | (Ok c, (a1, i1)) =>
      (Ok (address_of i c),
       (a1, {| self := set_public_uri (Some (address_of i c)) (self i1);
               _container := _container i1 |}))
  | (Raise e, st1) => (Raise e, st1)
  end.
Proof.
  intros Hu. unfold container_url. unfold bind at 1. unfold gets at 1. cbn [fst snd].
  rewrite Hu. unfold bind at 1.
  destruct (_get_container (a, i)) as [[c|e] [a1 i1]]; reflexivity.
Qed.

(** X18.  The container handle is fetched once.  Whatever an access to
    [container] returns: when it returns a handle, every later access
    returns that handle without a call, in any state of the account, and the
    attributes of the client are as before; when it raises, the client is
    unchanged, so that the next access asks again. *)
Theorem container_is_resolved_once (a a1 : Pyrax.account) (i i1 : t)
    (r : result Pyrax.container) :
  _get_container (a, i) = (r, (a1, i1)) ->
  self i1 = self i /\
  match r with
  | Ok c => forall a2, _get_container (a2, i1) = (Ok c, (a2, i1))
  | Raise _ => i1 = i /\ _container i = None
  end.
Proof.
  destruct (_container i) as [c|] eqn:Hc.
  - rewrite (get_container_cached c a i Hc). intros [= <- <- <-].
    split; [reflexivity|]. intros a2. apply get_container_cached. exact Hc.
  - rewrite (get_container_fetch a i Hc).
    destruct (Pyrax.get_container _ a) as [[c|e] a2]; intros [= <- <- <-].
    + split; [reflexivity|]. intros a3. apply get_container_cached. reflexivity.
    + auto.
Qed.

Lemma container_is_resolved_once_witness :
  let st1 := snd (_get_container (AccountScenario.account_with [], AccountScenario.client)) in
  let a2 := AccountScenario.account_with [Some HTTPException] in
  _get_container (a2, snd st1) =
  (Ok {| Pyrax.name := "media"; Pyrax.cdn_uri := "http://cdn.example.com";
         Pyrax.cdn_ssl_uri := "https://ssl.example.com" |}, (a2, snd st1)).
Proof.
  intros st1 a2.
  destruct (container_is_resolved_once (AccountScenario.account_with [])
              (fst st1) AccountScenario.client (snd st1)
              (Ok {| Pyrax.name := "media"; Pyrax.cdn_uri := "http://cdn.example.com";
                     Pyrax.cdn_ssl_uri := "https://ssl.example.com" |}) eq_refl)
    as [_ Hagain].
  apply Hagain.
Defined.

Lemma account_through {A} (c : Pyrax.call)
    (op : gmap string Pyrax.container_info -> result A * gmap string Pyrax.container_info)
    (a : Pyrax.account) :
  next_fault (Pyrax.faults a) = None ->
  Pyrax.remote c op a =
  (fst (op (Pyrax.containers a)),
   {| Pyrax.containers := snd (op (Pyrax.containers a));
      Pyrax.faults := tail (Pyrax.faults a);
      Pyrax.calls := (Pyrax.calls a ++ [c])%list |}).
Proof.
  unfold Pyrax.remote, next_fault. intros Hf.
  destruct (Pyrax.faults a) as [|[e'|] fs]; try discriminate;
    destruct (op (Pyrax.containers a)); reflexivity.
Qed.

Lemma account_fault {A} (c : Pyrax.call)
    (op : gmap string Pyrax.container_info -> result A * gmap string Pyrax.container_info)
    (a : Pyrax.account) (e : exn) :
  next_fault (Pyrax.faults a) = Some e ->
  Pyrax.remote c op a = (Raise e, Pyrax.after_call c a).
Proof.
  unfold Pyrax.remote, Pyrax.after_call, next_fault. intros Hf.
  destruct (Pyrax.faults a) as [|[e'|] fs]; try discriminate.
  injection Hf as ->. reflexivity.
Qed.

(** X19.  The public address is found once.  After an access to
    [container_url] that returned an address, every URL is built from that
    address without a remote call: [url] returns the address, a slash and
    the name, in any state of the account, and leaves the client as it is.
    An address the client already had, given at construction or found
    earlier, is the one returned, without a call, whatever [use_ssl] is and
    whether or not the container exists. *)
Theorem address_is_resolved_once (a a1 : Pyrax.account) (i i1 : t) (u : string) :
  container_url (a, i) = (Ok u, (a1, i1)) ->
  (forall a2 name_, url name_ (a2, i1) = (Ok (u ++ "/" ++ name_)%string, (a2, i1))) /\
  (forall u0, CloudFilesStorage._container_public_uri (self i) = Some u0 ->
              u = u0 /\ a1 = a /\ i1 = i).
Proof.
  intros Hurl.
  assert (Hu1 : CloudFilesStorage._container_public_uri (self i1) = Some u).
  { destruct (CloudFilesStorage._container_public_uri (self i)) as [u0|] eqn:Hu.
    - rewrite (container_url_cached u0 a i Hu) in Hurl. injection Hurl as <- <- <-.
      exact Hu.
    - rewrite (container_url_resolve a i Hu) in Hurl.
      destruct (_get_container (a, i)) as [[c|e] [a2 i2]]; [|discriminate].
      injection Hurl as <- <- <-. reflexivity. }
  split.
  - intros a2 name_. unfold url, bind.
    rewrite (container_url_cached u a2 i1 Hu1). reflexivity.
  - intros u0 Hu0. rewrite (container_url_cached u0 a i Hu0) in Hurl.
    injection Hurl as <- <- <-. auto.
Qed.

Lemma address_is_resolved_once_witness :
  let st1 := snd (container_url (AccountScenario.account_with [], AccountScenario.client)) in
  let a2 := AccountScenario.account_with [Some HTTPException] in
  url "a.txt" (a2, snd st1) = (Ok "http://cdn.example.com/a.txt", (a2, snd st1)).
Proof.
  intros st1 a2.
  destruct (address_is_resolved_once (AccountScenario.account_with [])
              (fst st1) AccountScenario.client (snd st1) "http://cdn.example.com" eq_refl)
    as [Hagain _].
  apply Hagain.
Defined.

(** X20.  The first URL of a client that has neither an address nor a
    handle, when the call goes through and the account has the container:
    one [get_container] call with the container name of the client; the
    URL is the SSL address of the container when [use_ssl] is set and its
    plain CDN address otherwise, then a slash and the name; the handle and
    the address are kept on the client. *)
Theorem first_url_asks_for_the_container (name_ n : string) (a : Pyrax.account) (i : t)
    (info : Pyrax.container_info) :
  CloudFilesStorage._container_public_uri (self i) = None ->
  _container i = None ->
  CloudFilesStorage.container_name (self i) = Some n ->
  Pyrax.containers a !! n = Some info ->
  next_fault (Pyrax.faults a) = None ->
  let u := if CloudFilesStorage.use_ssl (self i) then Pyrax.info_cdn_ssl_uri info
           else Pyrax.info_cdn_uri info in
  let c := {| Pyrax.name := n; Pyrax.cdn_uri := Pyrax.info_cdn_uri info;
              Pyrax.cdn_ssl_uri := Pyrax.info_cdn_ssl_uri info |} in
  url name_ (a, i) =
  (Ok (u ++ "/" ++ name_)%string,
   (Pyrax.after_call (Pyrax.call_get_container (Some n)) a,
    {| self := set_public_uri (Some u) (self i); _container := Some c |})).
Proof.
  intros Hu Hc Hn Hinfo Hq. cbn zeta. unfold url, bind.
  rewrite (container_url_resolve a i Hu), (get_container_fetch a i Hc), Hn.
  unfold Pyrax.get_container. rewrite (account_through _ _ a Hq), Hinfo.
  cbn [fst snd]. unfold ret.
  destruct (CloudFilesStorage.use_ssl (self i)); reflexivity.
Qed.

Lemma first_url_asks_for_the_container_witness :
  url "a.txt" (AccountScenario.account_with [], AccountScenario.client) =
  (Ok "http://cdn.example.com/a.txt",
   (Pyrax.after_call (Pyrax.call_get_container (Some "media"))
      (AccountScenario.account_with []),
    {| self := set_public_uri (Some "http://cdn.example.com") Scenario.storage;
       _container := Some {| Pyrax.name := "media";
                             Pyrax.cdn_uri := "http://cdn.example.com";
                             Pyrax.cdn_ssl_uri := "https://ssl.example.com" |} |})).
Proof.
  exact (first_url_asks_for_the_container "a.txt" "media"
           (AccountScenario.account_with []) AccountScenario.client
           AccountScenario.media eq_refl eq_refl eq_refl eq_refl eq_refl).
Defined.

(** X21.  Assigning [container] makes the container public first and
    changes the client only if that call succeeded.  When it raises, the
    client is unchanged.  When it returns, the account has the container of
    the handle, now public with the TTL of the client, the other containers
    as they were; the client holds the handle; and the address it had, the
    one given at construction included, is dropped: the next
    [container_url] is the address of the new handle, found without a
    call. *)
Theorem set_container_publishes_first (c : Pyrax.container) (a a1 : Pyrax.account)
    (i i1 : t) (r : result unit) :
  _set_container c (a, i) = (r, (a1, i1)) ->
  Pyrax.calls a1 =
    (Pyrax.calls a ++
     [Pyrax.call_make_container_public (Pyrax.name c) (CloudFilesStorage.ttl (self i))])%list /\
  match r with
  | Raise _ => i1 = i /\ Pyrax.containers a1 = Pyrax.containers a
  | Ok _ =>
      (exists info,
         Pyrax.containers a !! Pyrax.name c = Some info /\
         Pyrax.containers a1 =
           <[Pyrax.name c :=
               {| Pyrax.info_cdn_uri := Pyrax.info_cdn_uri info;
                  Pyrax.info_cdn_ssl_uri := Pyrax.info_cdn_ssl_uri info;
                  Pyrax.info_public_ttl := Some (CloudFilesStorage.ttl (self i)) |}]>
             (Pyrax.containers a)) /\
      _container i1 = Some c /\
      CloudFilesStorage._container_public_uri (self i1) = None /\
      forall a2, fst (container_url (a2, i1)) = Ok (address_of i c) /\
                 fst (snd (container_url (a2, i1))) = a2
  end.
Proof.
  unfold _set_container. unfold bind at 1. unfold gets at 1. cbn [fst snd].
  unfold bind at 1. unfold on_fst at 1. cbn [fst snd].
  unfold Pyrax.make_container_public, Pyrax.remote.
  destruct (Pyrax.faults a) as [|[e|] fs] eqn:Hfs;
    try (destruct (Pyrax.containers a !! Pyrax.name c) as [info|] eqn:Hinfo);
    cbn [fst snd]; unfold bind, modify; cbn [fst snd];
    intros [= <- <- <-]; cbn [Pyrax.calls Pyrax.containers];
    (split; [reflexivity|]); auto;
    (split; [eexists; split; [reflexivity | reflexivity]|]);
    (split; [reflexivity|]); (split; [reflexivity|]);
    intros a2; rewrite container_url_resolve by reflexivity;
    rewrite (get_container_cached c) by reflexivity; cbn [fst snd self];
    split; reflexivity.
Qed.

Lemma set_container_publishes_first_witness :
  let i := {| self := set_public_uri (Some "http://given.example.com") Scenario.storage;
              _container := None |} in
  let st1 := snd (_set_container AccountScenario.static
                    (AccountScenario.two_containers [], i)) in
  CloudFilesStorage._container_public_uri (self (snd st1)) = None /\
  forall a2, fst (container_url (a2, snd st1)) = Ok "http://static.example.com".
Proof.
  intros i st1.
  destruct (set_container_publishes_first AccountScenario.static
              (AccountScenario.two_containers []) (fst st1) i (snd st1) (Ok tt) eq_refl)
    as (_ & _ & _ & Hu & Hurl).
  split; [exact Hu|]. intros a2. apply Hurl.
Defined.

End container.

(** X22.  The pickled state of a client is its username, API key,
    container name and timeout, and nothing else: two clients have the
    same state exactly when they agree on these four, whatever their
    retry bound, TTL, SSL flag, public address and container handle. *)
Theorem getstate_keeps_four_attributes (i j : CloudFilesStorageContainer.t) :
  CloudFilesStorageContainer.__getstate__ i = CloudFilesStorageContainer.__getstate__ j <->
  CloudFilesStorage.username (CloudFilesStorageContainer.self i) =
    CloudFilesStorage.username (CloudFilesStorageContainer.self j) /\
  CloudFilesStorage.api_key (CloudFilesStorageContainer.self i) =
    CloudFilesStorage.api_key (CloudFilesStorageContainer.self j) /\
  CloudFilesStorage.container_name (CloudFilesStorageContainer.self i) =
    CloudFilesStorage.container_name (CloudFilesStorageContainer.self j) /\
  CloudFilesStorage.timeout (CloudFilesStorageContainer.self i) =
    CloudFilesStorage.timeout (CloudFilesStorageContainer.self j).
Proof.
  assert (Hinj : forall o1 o2, str_or_none o1 = str_or_none o2 -> o1 = o2).
  { intros [s1|] [s2|]; simpl; congruence. }
  unfold CloudFilesStorageContainer.__getstate__. split.
  - intros Heq.
    pose proof (f_equal (fun m => m !! "username") Heq) as H1.
    pose proof (f_equal (fun m => m !! "api_key") Heq) as H2.
    pose proof (f_equal (fun m => m !! "container_name") Heq) as H3.
    pose proof (f_equal (fun m => m !! "timeout") Heq) as H4.
    vm_compute in H1, H2, H3, H4.
    injection H1 as H1. injection H2 as H2. injection H3 as H3. injection H4 as H4.
    auto.
  - intros (-> & -> & -> & ->). reflexivity.
Qed.

(** ** The settings *)

Section settings.

Local Abbreviation deprecation :=
  "settings.CUMULUS_* is deprecated; use settings.CUMULUS instead.".

Lemma defaults_stay (d : gmap string pyvalue) (k : string) :
  is_Some (Settings.defaults !! k) -> is_Some (Settings.update Settings.defaults d !! k).
Proof.
  intros Hk. unfold Settings.update. apply lookup_union_is_Some. right. exact Hk.
Qed.

(** X23.  Whenever the settings module is imported without an exception,
    [CUMULUS] has every key of the defaults, and so every key storage.py
    subscripts: no setting, old or new, removes one. *)
Theorem settings_keep_the_default_keys (s : Settings.django_settings) (ws ws' : list string)
    (m : gmap string pyvalue) :
  Settings.CUMULUS s ws = (Ok m, ws') ->
  (forall k, is_Some (Settings.defaults !! k) -> is_Some (m !! k)) /\
  Forall (fun k => is_Some (m !! k)) Settings.keys_read_by_storage.
Proof.
  intros Hload.
  assert (Hall : forall k, is_Some (Settings.defaults !! k) -> is_Some (m !! k)).
  { revert Hload. unfold Settings.CUMULUS.
    destruct (Settings.CUMULUS_attr s) as [d|]; cbn [negb andb bool_decide].
    - rewrite bool_decide_eq_true_2 by eauto. cbn [negb andb].
      intros [= <- <-] k. apply defaults_stay.
    - rewrite bool_decide_eq_false_2 by (intros [? [=]]). cbn [negb andb].
      destruct (Settings.hasattr s "CUMULUS_API_KEY").
      + unfold bind at 1. unfold modify at 1. unfold bind at 1.
        destruct (Settings.old_style s _) as [[d|e] ws1]; [|discriminate].
        intros [= <- <-] k. apply defaults_stay.
      + intros [= <- <-] k Hk. exact Hk. }
  split; [exact Hall|].
  unfold Settings.keys_read_by_storage.
  repeat (apply Forall_cons; split; [apply Hall; vm_compute; eauto|]).
  apply Forall_nil. exact I.
Qed.

Lemma settings_keep_the_default_keys_witness :
  Forall (fun k => is_Some (Settings.update Settings.defaults {[ "TTL" := PInt 60 ]} !! k))
    Settings.keys_read_by_storage.
Proof.
  destruct (settings_keep_the_default_keys
              {| Settings.CUMULUS_attr := Some {[ "TTL" := PInt 60 ]};
                 Settings.attrs := ∅ |}
              [] [] (Settings.update Settings.defaults {[ "TTL" := PInt 60 ]}) eq_refl)
    as [_ Hkeys].
  exact Hkeys.
Defined.

(** X24.  With [settings.CUMULUS], or with no old-style API key, the
    import raises nothing and warns of nothing; each key has the value
    [settings.CUMULUS] gives it, if it gives one, and its default
    otherwise; the old-style attributes are not read. *)
Theorem new_style_settings_override_defaults (s : Settings.django_settings)
    (ws : list string) :
  is_Some (Settings.CUMULUS_attr s) \/ Settings.attrs s !! "CUMULUS_API_KEY" = None ->
  exists m,
    Settings.CUMULUS s ws = (Ok m, ws) /\
    forall k, m !! k = match Settings.CUMULUS_attr s ≫= (fun d => d !! k) with
                       | Some v => Some v
                       | None => Settings.defaults !! k
                       end.
Proof.
  intros Hnew. unfold Settings.CUMULUS.
  destruct (Settings.CUMULUS_attr s) as [d|] eqn:Hd.
  - rewrite bool_decide_eq_true_2 by eauto. cbn [negb andb].
    eexists. split; [reflexivity|]. intros k. cbn [mbind option_bind].
    unfold Settings.update. rewrite lookup_union.
    destruct (d !! k), (Settings.defaults !! k); reflexivity.
  - destruct Hnew as [[? [=]] | Hkey].
    unfold Settings.hasattr. rewrite Hkey.
    rewrite (bool_decide_eq_false_2 (is_Some (@None pyvalue))) by (intros [? [=]]).
    rewrite andb_false_r.
    eexists. split; [reflexivity|]. intros k. reflexivity.
Qed.

Lemma new_style_settings_override_defaults_witness :
  let s := {| Settings.CUMULUS_attr := Some {[ "TTL" := PInt 60 ]};
              Settings.attrs := {[ "CUMULUS_API_KEY" := PStr "old" ]} |} in
  exists m,
    Settings.CUMULUS s [] = (Ok m, []) /\
    forall k, m !! k = match Settings.CUMULUS_attr s ≫= (fun d => d !! k) with
                       | Some v => Some v
                       | None => Settings.defaults !! k
                       end.
Proof.
  intros s. apply (new_style_settings_override_defaults s []). left. eexists. reflexivity.
Defined.

Lemma old_style_lookup (k0 c0 u0 cn sn tm tt0 : pyvalue) (key : string) :
  let d : gmap string pyvalue :=
    {[ "API_KEY" := k0; "CNAMES" := cn; "CONTAINER" := c0; "SERVICENET" := sn;
       "TIMEOUT" := tm; "TTL" := tt0; "USERNAME" := u0 ]} in
  key ∉ ["API_KEY"; "CNAMES"; "CONTAINER"; "SERVICENET"; "TIMEOUT"; "TTL"; "USERNAME"] ->
  Settings.update Settings.defaults d !! key = Settings.defaults !! key.
Proof.
  intros d Hkey. unfold Settings.update. apply lookup_union_r. subst d.
  repeat (rewrite lookup_insert_ne by (intros <-; apply Hkey; set_solver)).
  apply lookup_singleton_ne. intros <-. apply Hkey. set_solver.
Qed.

(** X25.  With old-style settings (no [settings.CUMULUS], a
    [CUMULUS_API_KEY]) the import issues the deprecation warning, once, and
    then needs [CUMULUS_CONTAINER] and [CUMULUS_USERNAME]: without one of
    them it raises AttributeError.  With both, the seven old-style keys are
    set from the attributes, the optional ones falling back to None, False,
    5 and, for the TTL, 8400 (not the 86400 of the defaults); every other
    key, the retry bound among them, keeps its default. *)
Theorem old_style_settings (s : Settings.django_settings) (ws : list string)
    (key_ : pyvalue) :
  Settings.CUMULUS_attr s = None ->
  Settings.attrs s !! "CUMULUS_API_KEY" = Some key_ ->
  let r := Settings.CUMULUS s ws in
  snd r = (ws ++ [deprecation])%list /\
  match Settings.attrs s !! "CUMULUS_CONTAINER", Settings.attrs s !! "CUMULUS_USERNAME" with
  | Some c, Some u =>
      exists m,
        fst r = Ok m /\
        m !! "API_KEY" = Some key_ /\ m !! "CONTAINER" = Some c /\
        m !! "USERNAME" = Some u /\
        m !! "CNAMES" = Some (Settings.getattr_default s "CUMULUS_CNAMES" PNone) /\
        m !! "SERVICENET" =
          Some (Settings.getattr_default s "CUMULUS_USE_SERVICENET" (PBool false)) /\
        m !! "TIMEOUT" = Some (Settings.getattr_default s "CUMULUS_TIMEOUT" (PInt 5)) /\
        m !! "TTL" = Some (Settings.getattr_default s "CUMULUS_TTL" (PInt 8400)) /\
        forall k,
          k ∉ ["API_KEY"; "CNAMES"; "CONTAINER"; "SERVICENET"; "TIMEOUT"; "TTL"; "USERNAME"] ->
          m !! k = Settings.defaults !! k
  | _, _ => fst r = Raise AttributeError
  end.
Proof.
  intros Hd Hkey. cbn zeta. unfold Settings.CUMULUS. rewrite Hd.
  rewrite (bool_decide_eq_false_2 (is_Some (@None (gmap string pyvalue))))
    by (intros [? [=]]).
  unfold Settings.hasattr. rewrite Hkey.
  rewrite bool_decide_eq_true_2 by eauto. cbn [negb andb].
  unfold Settings.old_style, Settings.getattr, bind, modify, ret, raise.
  rewrite Hkey.
  destruct (Settings.attrs s !! "CUMULUS_CONTAINER") as [c|];
    destruct (Settings.attrs s !! "CUMULUS_USERNAME") as [u|];
    cbn [fst snd]; (split; [reflexivity|]); try reflexivity.
  eexists. split; [reflexivity|].
  repeat (split; [vm_compute; reflexivity|]).
  intros k Hk. apply old_style_lookup. exact Hk.
Qed.

Lemma old_style_settings_witness :
  let s := {| Settings.CUMULUS_attr := None;
              Settings.attrs := {[ "CUMULUS_API_KEY" := PStr "key";
                                   "CUMULUS_CONTAINER" := PStr "media";
                                   "CUMULUS_USERNAME" := PStr "user" ]} |} in
  exists m,
    fst (Settings.CUMULUS s []) = Ok m /\
    m !! "TTL" = Some (PInt 8400) /\ m !! "MAX_RETRIES" = Some (PInt 5).
Proof.
  intros s.
  destruct (old_style_settings s [] (PStr "key") eq_refl eq_refl)
    as (_ & m & Hm & _ & _ & _ & _ & _ & _ & Httl & Hrest).
  exists m. split; [exact Hm|]. split; [exact Httl|].
  rewrite Hrest; [reflexivity|].
  rewrite !not_elem_of_cons. repeat split; try discriminate. apply not_elem_of_nil.
Defined.

End settings.
